(** * Vehmloewff/jsonrpc: a JSON-RPC client and server over websockets

    A shallow embedding of [utils.ts], [shared.ts], [server.ts] and
    [client.ts], and the properties of the protocol engine proved on it.

    Conventions of the embedding:
    - a JavaScript value is a [value]; [VUndefined] is JavaScript's
      [undefined], which a property read of an absent key yields;
    - numbers are the integer-valued ones (a [Z]);
    - an object is an association list in insertion order, the order
      [JSON.stringify] writes;
    - the host's builtins ([JSON.parse], [JSON.stringify], what the
      websocket transport does with a frame written to a closed socket) are
      the fields of the class [Runtime];
    - a function that can raise returns a [Result]; code that mutates shared
      objects runs in the state monad [M];
    - the callbacks of the application ([options.listener], [errorHandler],
      [onGeneralError]) are recorded as effects and taken not to raise;
    - identifiers come from [v4.generate()], which the operations of the
      client take as an argument. *)

From Stdlib Require Import ZArith Lia Bool.
From stdpp Require Import base tactics option list strings gmap pretty.

Local Open Scope Z_scope.
Local Set Warnings "-register-all".


(** ** JavaScript values *)

Inductive value :=
| VUndefined
| VNull
| VBool (b : bool)
| VNum (n : Z)
| VStr (s : string)
| VArr (items : list value)
| VObj (fields : list (string * value)).

(** [if (v)]: the falsy values are [undefined], [null], [false], [0] and
    the empty string. *)
Definition truthy (v : value) : bool :=
  match v with
  | VUndefined | VNull => false
  | VBool b => b
  | VNum n => negb (n =? 0)
  | VStr s => negb (String.eqb s "")
  | VArr _ | VObj _ => true
  end.

(** [a ?? b] *)
Definition nullish (a b : value) : value :=
  match a with
  | VUndefined | VNull => b
  | _ => a
  end.

(** Own properties of an object literal or of a [JSON.parse] result. *)
Fixpoint get (k : string) (fields : list (string * value)) : value :=
  match fields with
  | [] => VUndefined
  | (k', v) :: rest => if String.eqb k k' then v else get k rest
  end.

Fixpoint has (k : string) (fields : list (string * value)) : bool :=
  match fields with
  | [] => false
  | (k', _) :: rest => String.eqb k k' || has k rest
  end.

(** [obj[k] = v]: an existing key keeps its place, a new one goes last. *)
Fixpoint set (k : string) (v : value) (fields : list (string * value))
  : list (string * value) :=
  match fields with
  | [] => [(k, v)]
  | (k', v') :: rest =>
      if String.eqb k k' then (k, v) :: rest else (k', v') :: set k v rest
  end.

(** What a [throw] carries: any value, or an [Error] object with its
    message. *)
Inductive exn :=
| Thrown (v : value)
| JsError (message : string)
| TypeError
| ConnectionReset.

Inductive Result (A : Type) :=
| Ok (a : A)
| Throw (e : exn).
Arguments Ok {A} a.
Arguments Throw {A} e.

(** ** utils.ts *)

Module Utils.

(** [makeArray = val => Array.isArray(val) ? val : [val]] *)
Definition makeArray (val : value) : list value :=
  match val with
  | VArr items => items
  | _ => [val]
  end.

(** A string as its UTF-16 code units, which is what [charCodeAt] and
    [String.fromCharCode] see. *)
Definition jsstring := list Z.

(** The code units of a literal made of ASCII characters. *)
Definition codes (s : string) : jsstring :=
  map (fun c => Z.of_nat (Ascii.nat_of_ascii c)) (String.list_ascii_of_string s).

(** [Number(n).toString(16)] on an integer. *)
Definition hexDigit (d : Z) : Z := if d <? 10 then 48 + d else 87 + d.

Fixpoint hexDigits (fuel : nat) (n : Z) (acc : jsstring) : jsstring :=
  match fuel with
  | O => acc
  | S fuel' =>
      let acc' := hexDigit (n mod 16) :: acc in
      if n / 16 =? 0 then acc' else hexDigits fuel' (n / 16) acc'
  end.

Definition toString16 (n : Z) : jsstring :=
  if n <? 0
  then 45 :: hexDigits (S (Z.to_nat (Z.log2 (- n)))) (- n) []
  else hexDigits (S (Z.to_nat (Z.log2 n))) n [].

(** [s.substr(-2)]: the last two code units, or all of a shorter string. *)
Definition substr_last2 (s : jsstring) : jsstring :=
  skipn (length s - 2)%nat s.

Section Encryptor.

Variable key : jsstring.

(** [text.split('').map(c => c.charCodeAt(0))] *)
Definition textToChars (text : jsstring) : list Z := text.

(** [('0' + Number(n).toString(16)).substr(-2)] *)
Definition byteHex (n : Z) : jsstring := substr_last2 (48 :: toString16 n).

(** [textToChars(key).reduce((a, b) => a ^ b, code)] *)
Definition applyKeyToChar (code : Z) : Z :=
  fold_left Z.lxor (textToChars key) code.

(** The line terminators, which [.] of a regular expression skips. *)
Definition isLineTerminator (c : Z) : bool :=
  (c =? 10) || (c =? 13) || (c =? 8232) || (c =? 8233).

(** [encoded.match(/.{1,2}/g) || []]: greedy runs of one or two code
    units that are not line terminators. *)
Fixpoint matchPairs (encoded : jsstring) : list jsstring :=
  match encoded with
  | [] => []
  | a :: rest =>
      if isLineTerminator a then matchPairs rest
      else match rest with
           | [] => [[a]]
           | b :: rest' =>
               if isLineTerminator b then [a] :: matchPairs rest'
               else [a; b] :: matchPairs rest'
           end
  end.

(** [parseInt(hex, 16)]; [None] is [NaN]. *)
Definition isWhiteSpace (c : Z) : bool :=
  ((9 <=? c) && (c <=? 13)) || (c =? 32) || (c =? 160) || (c =? 5760)
  || ((8192 <=? c) && (c <=? 8202)) || (c =? 8232) || (c =? 8233)
  || (c =? 8239) || (c =? 8287) || (c =? 12288) || (c =? 65279).

Definition hexValue (c : Z) : option Z :=
  if (48 <=? c) && (c <=? 57) then Some (c - 48)
  else if (97 <=? c) && (c <=? 102) then Some (c - 87)
  else if (65 <=? c) && (c <=? 70) then Some (c - 55)
  else None.

Fixpoint skipWhiteSpace (s : jsstring) : jsstring :=
  match s with
  | c :: rest => if isWhiteSpace c then skipWhiteSpace rest else s
  | [] => []
  end.

Fixpoint hexPrefix (s : jsstring) (acc : option Z) : option Z :=
  match s with
  | c :: rest =>
      match hexValue c with
      | Some d => hexPrefix rest (Some (16 * default 0 acc + d))
      | None => acc
      end
  | [] => acc
  end.

Definition parseInt16 (hex : jsstring) : option Z :=
  let s := skipWhiteSpace hex in
  let '(sign, s) :=
    match s with
    | 45 :: rest => (-1, rest)
    | 43 :: rest => (1, rest)
    | _ => (1, s)
    end in
  let s :=
    match s with
    | 48 :: 120 :: rest => rest
    | 48 :: 88 :: rest => rest
    | _ => s
    end in
  (fun n => sign * n) <$> hexPrefix s None.

(** [String.fromCharCode(charCode)]: the code unit is [ToUint16]. *)
Definition fromCharCode (charCode : Z) : Z := charCode mod 65536.

(** [decrypt]. The bitwise [^] reads [NaN] as [0]. *)
Definition decrypt (encoded : jsstring) : jsstring :=
  map fromCharCode
    (map applyKeyToChar
       (map (fun hex => default 0 (parseInt16 hex)) (matchPairs encoded))).

(** [encrypt] *)
Definition encrypt (text : jsstring) : jsstring :=
  concat (map byteHex (map applyKeyToChar (textToChars text))).

End Encryptor.

(** The code units below 256. *)
Definition byte_range (c : Z) : Prop := 0 <= c < 256.

(** What [byteHex] writes for a byte is read back by [parseInt]: checked
      on each of the 256 bytes. *)
Definition byteHex_reads_back (n : Z) : bool :=
    match byteHex n with
    | [h; l] =>
        negb (isLineTerminator h) && negb (isLineTerminator l)
        && match parseInt16 [h; l] with
           | Some m => m =? n
           | None => false
           end
    | _ => false
    end.

(** [lazyJSONParse]: what [JSON.parse] gives, or [{}] when it raises. *)
Definition lazyJSONParse (parse : string -> option value) (json : string) : value :=
  match parse json with
  | Some v => v
  | None => VObj []
  end.

End Utils.

(** ** shared.ts *)

Module Shared.

(** [paramsEncoder = makeEncryptor('nothing-secret')] *)
Definition paramsKey : Utils.jsstring := Utils.codes "nothing-secret".

Definition paramsEncrypt : Utils.jsstring -> Utils.jsstring := Utils.encrypt paramsKey.
Definition paramsDecrypt : Utils.jsstring -> Utils.jsstring := Utils.decrypt paramsKey.

End Shared.


(** ** The host *)

(** What the websocket of the server does with a frame written after the
    socket has closed. *)
Inductive ClosedSend :=
| RaiseOnClosed
| IgnoreOnClosed.

Class Runtime := {
  (** [JSON.parse]; [None] when it raises a [SyntaxError]. *)
  JSON_parse : string -> option value;
  (** [JSON.stringify] *)
  JSON_stringify : value -> string;
  (** [sock.send] on a closed socket. *)
  sendOnClosed : ClosedSend;
}.

(** ** A state monad with exceptions *)

Definition M (St A : Type) : Type := St -> Result A * St.

Definition ret {St A} (a : A) : M St A := fun s => (Ok a, s).

Definition throw {St A} (e : exn) : M St A := fun s => (Throw e, s).

Definition bind {St A B} (m : M St A) (k : A -> M St B) : M St B :=
  fun s =>
    match m s with
    | (Ok a, s') => k a s'
    | (Throw e, s') => (Throw e, s')
    end.

(** [await p] of a settled promise: its value, or its rejection raised. *)
Definition await {St A} (p : Result A) : M St A := fun s => (p, s).

Definition modify {St} (f : St -> St) : M St unit := fun s => (Ok tt, f s).

Notation "x <- m ;; k" := (bind m (fun x => k))
  (at level 100, m at next level, right associativity).
Notation "m ;;; k" := (bind m (fun _ => k))
  (at level 100, right associativity).

(** [asyncForEach]: the callbacks run one after the other, each awaited; a
    rejected one ends the loop. *)
Fixpoint asyncForEachFrom {St A} (index : nat) (arr : list A)
    (cb : A -> nat -> M St unit) : M St unit :=
  match arr with
  | [] => ret tt
  | item :: rest => cb item index ;;; asyncForEachFrom (S index) rest cb
  end.

Definition asyncForEach {St A} (arr : list A) (cb : A -> nat -> M St unit)
  : M St unit :=
  asyncForEachFrom 0 arr cb.

(** [s.endsWith(suffix)] *)
Definition endsWith (suffix s : string) : bool :=
  let n := String.length s in
  let m := String.length suffix in
  (m <=? n)%nat && String.eqb (String.substring (n - m) m s) suffix.

(** [v !== undefined] *)
Definition defined (v : value) : bool :=
  match v with
  | VUndefined => false
  | _ => true
  end.

(** ** server.ts *)

Module Server.

(** A websocket of the server: whether it has closed, and the text frames
    written to it. *)
Record WebSocket := { isClosed : bool; wire : list string }.

(** The mutable state of [createJsonrpcServer]. Socket objects live in
    [heap] and are held by reference, by the table [socks] and by the [emit]
    closures given to emitter handlers. *)
Record State := {
  socks : gmap string nat;
  heap : list WebSocket;
  emits : list (nat * value);
  console : list string;
}.

Definition withSocks (f : gmap string nat -> gmap string nat) (st : State) : State :=
  {| socks := f (socks st); heap := heap st; emits := emits st; console := console st |}.

Definition withHeap (f : list WebSocket -> list WebSocket) (st : State) : State :=
  {| socks := socks st; heap := f (heap st); emits := emits st; console := console st |}.

Definition withEmits (f : list (nat * value) -> list (nat * value)) (st : State) : State :=
  {| socks := socks st; heap := heap st; emits := f (emits st); console := console st |}.

Definition warn (line : string) : M State unit :=
  modify (fun st =>
    {| socks := socks st; heap := heap st; emits := emits st;
       console := console st ++ [line] |}).

(** [interface JsonRpcRequest]; [id] is [VUndefined] when the request has
    none. *)
Record JsonRpcRequest := { method : string; id : value; params : value }.

(** [JsonRpcRequest | 'invalid'] *)
Inductive Parsed :=
| Invalid
| Request (request : JsonRpcRequest).

(** A method handler as registered: [async (params, client) => await
    listener(params, client)], that is the value its promise resolves with
    or the error it rejects with. *)
Abbreviation MethodHandler := (value -> string -> Result value).

(** An emitter handler: it is given [emit] and runs in the state of the
    server; what it does before it returns is the computation. *)
Abbreviation EmitterHandler :=
  (value -> (value -> M State unit) -> string -> M State unit).

Record Registry := {
  methods : gmap string MethodHandler;
  emitters : gmap string EmitterHandler;
}.

Definition noHandlers : Registry := {| methods := ∅; emitters := ∅ |}.

(** [method(method, listener)] *)
Definition registerMethod (name : string) (listener : MethodHandler)
    (reg : Registry) : Registry :=
  {| methods := <[name := listener]> (methods reg); emitters := emitters reg |}.

(** [emitter(method, listener)]: the key is [method + ':']. *)
Definition registerEmitter (name : string) (listener : EmitterHandler)
    (reg : Registry) : Registry :=
  {| methods := methods reg;
     emitters := <[String.append name ":" := listener]> (emitters reg) |}.

Section WithRuntime.

Context `{RT : Runtime}.

(** [sock.send(frame)] of the transport. A reference the server holds is
    always that of an allocated socket. *)
Definition sockSend (sock : nat) (frame : string) : M State unit :=
  fun st =>
    match heap st !! sock with
    | Some ws =>
        if isClosed ws then
          match sendOnClosed with
          | RaiseOnClosed => (Throw ConnectionReset, st)
          | IgnoreOnClosed => (Ok tt, st)
          end
        else
          (Ok tt,
           withHeap
             <[sock := {| isClosed := false; wire := wire ws ++ [frame] |}]> st)
    | None => (Throw TypeError, st)
    end.

(** [message.jsonrpc = '2.0']. On an array the property is one
    [JSON.stringify] does not write; on a primitive, [null] or
    [undefined] the assignment raises (module code is strict). *)
Definition stamp (message : value) : Result value :=
  match message with
  | VObj fields => Ok (VObj (set "jsonrpc" (VStr "2.0") fields))
  | VArr items => Ok (VArr items)
  | _ => Throw TypeError
  end.

(** The [forEach] of [send]; [length] is [messages.length], [stamped] the
    messages already gone through. *)
Fixpoint sendEach (sock : nat) (length : nat) (messages stamped : list value)
  : M State (list value) :=
  match messages with
  | [] => ret stamped
  | message :: rest =>
      message' <- await (stamp message) ;;
      (if (length =? 1)%nat then sockSend sock (JSON_stringify message')
       else ret tt) ;;;
      sendEach sock length rest (stamped ++ [message'])
  end.

(** [send(sock, message)] *)
Definition send (sock : nat) (message : value) : M State unit :=
  let messages := Utils.makeArray message in
  stamped <- sendEach sock (length messages) messages [] ;;
  if (length messages =? 1)%nat then ret tt
  else sockSend sock (JSON_stringify (VArr stamped)).

(** The check of one element of the decoded input. *)
Definition validate (obj : value) : Parsed :=
  match obj with
  | VObj fields =>
      match get "jsonrpc" fields with
      | VStr version =>
          if String.eqb version "2.0" then
            match get "method" fields with
            | VStr name =>
                Request {| method := name; id := get "id" fields;
                           params := get "params" fields |}
            | _ => Invalid
            end
          else Invalid
      | _ => Invalid
      end
  | _ => Invalid
  end.

(** [parseRequest]; [None] is ['parse-error']. *)
Definition parseRequest (json : string) : option (list Parsed) :=
  match JSON_parse json with
  | None => None
  | Some decoded =>
      let res := map validate (Utils.makeArray decoded) in
      Some (match res with [] => [Invalid] | _ => res end)
  end.

Definition errorObject (code : Z) (message : string) : value :=
  VObj [("code", VNum code); ("message", VStr message)].

Definition parseError : value :=
  VObj [("id", VNull); ("error", errorObject (-32700) "Parse error")].

Definition invalidRequest : value :=
  VObj [("id", VNull); ("error", errorObject (-32600) "Invalid Request")].

Definition notFound (what : string) (id : value) : value :=
  VObj [("error", errorObject (-32601) what); ("id", id)].

(** The local [responses] of [handleRequest] next to the state of the
    server. *)
Record Batch := { responses : list value; server : State }.

Definition push (response : value) : M Batch unit :=
  modify (fun b =>
    {| responses := responses b ++ [response]; server := server b |}).

Definition onServer {A} (m : M State A) : M Batch A :=
  fun b =>
    let '(r, st) := m (server b) in
    (r, {| responses := responses b; server := st |}).

(** The [emit] given to an emitter handler:
    [data => send(sock, { result: data, id: request.id })]. *)
Definition emit (sock : nat) (id : value) (data : value) : M State unit :=
  send sock (VObj [("result", data); ("id", id)]).

(** The callback [handleRequest] runs on each request. *)
Definition dispatch (reg : Registry) (client : string) (sock : nat)
    (request : Parsed) (index : nat) : M Batch unit :=
  match request with
  | Invalid => push invalidRequest
  | Request request =>
      if negb (endsWith ":" (method request)) then
        match methods reg !! method request with
        | None =>
            if defined (id request)
            then push (notFound "Method not found" (id request))
            else ret tt
        | Some handler =>
            result <- await (handler (params request) client) ;;
            if defined (id request)
            then push (VObj [("id", id request); ("result", result)])
            else ret tt
        end
      else
        match emitters reg !! method request with
        | None =>
            if defined (id request)
            then push (notFound "Emitter not found" (id request))
            else ret tt
        | Some handler =>
            onServer
              (modify (withEmits (fun es => es ++ [(sock, id request)])) ;;;
               handler (params request) (emit sock (id request)) client)
        end
  end.

(** [handleRequest(client, raw)] *)
Definition handleRequest (reg : Registry) (client raw : string) : M State unit :=
  fun st =>
    match socks st !! client with
    | None =>
        warn "Warn: recieved a request from and undefined connection" st
    | Some sock =>
        match parseRequest raw with
        | None => send sock parseError st
        | Some requests =>
            match asyncForEach requests (dispatch reg client sock)
                    {| responses := []; server := st |} with
            | (Ok _, b) => send sock (VArr (responses b)) (server b)
            | (Throw e, b) => (Throw e, server b)
            end
        end
    end.

(** The socket [sock] is allocated and has not closed. *)
Definition isOpen (sock : nat) (st : State) : bool :=
match heap st !! sock with
| Some ws => negb (isClosed ws)
| None => false
end.

(** The state once [frame] has been written to the socket [sock]. *)
Definition written (sock : nat) (frame : string) (st : State) : State :=
match heap st !! sock with
| Some ws =>
    withHeap <[sock := {| isClosed := isClosed ws; wire := wire ws ++ [frame] |}]> st
| None => st
end.

Definition isObject (v : value) : bool :=
match v with
| VObj _ => true
| _ => false
end.

(** A message with the version tag on it. *)
Definition stamped (message : value) : value :=
match message with
| VObj fields => VObj (set "jsonrpc" (VStr "2.0") fields)
| _ => message
end.

(** The wire form of the messages of one [send], in the words of the
  specification: a bare object for exactly one message, else an array. *)
Definition wireForm (messages : list value) : string :=
match messages with
| [message] => JSON_stringify (stamped message)
| _ => JSON_stringify (VArr (map stamped messages))
end.

(** The socket [sock] is allocated and has closed. *)
Definition hasClosed (sock : nat) (st : State) : bool :=
match heap st !! sock with
| Some ws => isClosed ws
| None => false
end.

(** A later call of the [emit] closure number [k]. *)
Definition emitLater (k : nat) (data : value) : M State unit :=
  fun st =>
    match emits st !! k with
    | Some (sock, id) => emit sock id data st
    | None => (Ok tt, st)
    end.

(** In the words of the specification: the batch [raw] of [client] is
  answered, that is [handleRequest] ends normally and has written one
  more frame to the socket of the client. *)
Definition batchAnswered (reg : Registry) (client raw : string) (st : State) : Prop :=
exists st' sock ws ws' frame,
  handleRequest reg client raw st = (Ok tt, st')
  /\ socks st !! client = Some sock
  /\ heap st !! sock = Some ws /\ heap st' !! sock = Some ws'
  /\ wire ws' = wire ws ++ [frame].

(** In the words of the specification: the call of an [emit] closure does
  not raise. *)
Definition emitDoesNotThrow (k : nat) (data : value) (st : State) : Prop :=
exists st', emitLater k data st = (Ok tt, st').

(** [createConnection] once the client has its id: the socket is a new
    object, entered in [socks]. *)
Definition register (clientId : string) : M State nat :=
  fun st =>
    let sock := length (heap st) in
    (Ok sock,
     withSocks <[clientId := sock]>
       (withHeap (fun h => h ++ [{| isClosed := false; wire := [] |}]) st)).

(** What reaches the loop [for await (const ev of sock)]. *)
Inductive SocketEvent :=
| Text (raw : string)
| Binary
| Ping
| Close.

Definition closeSocket (sock : nat) (st : State) : State :=
  match heap st !! sock with
  | Some ws =>
      withHeap <[sock := {| isClosed := true; wire := wire ws |}]> st
  | None => st
  end.

(** The body of that loop for the connection [clientId] on [sock]. A close
    event comes from a socket the transport has closed. *)
Definition onEvent (reg : Registry) (clientId : string) (sock : nat)
    (ev : SocketEvent) : M State unit :=
  match ev with
  | Text raw => handleRequest reg clientId raw
  | Binary => warn "Warn: an invalid jsonrpc message was sent.  Skipping."
  | Ping => ret tt
  | Close => modify (fun st => withSocks (delete clientId) (closeSocket sock st))
  end.

End WithRuntime.

End Server.


(** ** client.ts *)

Module ListenOptions.

(** [interface ListenOptions]. The callbacks are the application's: the
    record says which are given; [params] is [VUndefined] when absent. *)
Record t := { params : value; listener : bool; errorHandler : bool }.

End ListenOptions.

Module ConnectOptions.

(** [interface ConnectOptions]; [onGeneralError] says whether the callback
    is given. *)
Record t := {
  onGeneralError : bool;
  retryCount : option Z;
  retryInterval : option Z;
}.

End ConnectOptions.

Module Client.

(** [WebSocket.readyState] *)
Inductive ReadyState :=
| CONNECTING
| OPEN
| CLOSING
| CLOSED.

(** A websocket of the client and the frames sent on it. *)
Record WebSocket := { readyState : ReadyState; sent : list string }.

(** The two closures [listeners] holds: that of [call], which captures its
    [id], and that of [listen], which captures its [options]. *)
Inductive Listener :=
| OneShot (id : string)
| Subscription (options : ListenOptions.t).

(** The promise [call] returns. *)
Inductive Promise :=
| Pending
| Fulfilled (data : value)
| Rejected (error : exn).

(** What the application sees of the engine. *)
Inductive Effect :=
| GeneralError (error : value)
| ListenerCalled (options : ListenOptions.t) (data : value)
| ErrorHandlerCalled (options : ListenOptions.t) (error : value)
| Uncaught (error : exn)
| Warned.

(** A number or [Infinity]. *)
Inductive Limit :=
| Finite (n : Z)
| Infinity.

(** The variables of [connect]. [sockets] are the websockets constructed so
    far; [notifier] is the socket the current [newOutgoingMessageNotifier]
    closes over ([None] for the initial [() => {}]); [outgoing] is [None]
    for [null]; [timers] are the pending [setTimeout] calls with their
    delays; [promises] are the promises of [call], by id; [connected] says
    whether the promise [connect] awaits has resolved. *)
Record State := {
  listeners : gmap string Listener;
  outgoing : option (list string);
  notifier : option nat;
  retryCount : Z;
  sockets : list WebSocket;
  timers : list Z;
  promises : gmap string Promise;
  connected : bool;
  log : list Effect;
}.

Definition withListeners (f : gmap string Listener -> gmap string Listener)
    (c : State) : State :=
  {| listeners := f (listeners c); outgoing := outgoing c; notifier := notifier c;
     retryCount := retryCount c; sockets := sockets c; timers := timers c;
     promises := promises c; connected := connected c; log := log c |}.

Definition withOutgoing (o : option (list string)) (c : State) : State :=
  {| listeners := listeners c; outgoing := o; notifier := notifier c;
     retryCount := retryCount c; sockets := sockets c; timers := timers c;
     promises := promises c; connected := connected c; log := log c |}.

Definition withNotifier (n : option nat) (c : State) : State :=
  {| listeners := listeners c; outgoing := outgoing c; notifier := n;
     retryCount := retryCount c; sockets := sockets c; timers := timers c;
     promises := promises c; connected := connected c; log := log c |}.

Definition withRetryCount (n : Z) (c : State) : State :=
  {| listeners := listeners c; outgoing := outgoing c; notifier := notifier c;
     retryCount := n; sockets := sockets c; timers := timers c;
     promises := promises c; connected := connected c; log := log c |}.

Definition withSockets (f : list WebSocket -> list WebSocket) (c : State) : State :=
  {| listeners := listeners c; outgoing := outgoing c; notifier := notifier c;
     retryCount := retryCount c; sockets := f (sockets c); timers := timers c;
     promises := promises c; connected := connected c; log := log c |}.

Definition withTimers (f : list Z -> list Z) (c : State) : State :=
  {| listeners := listeners c; outgoing := outgoing c; notifier := notifier c;
     retryCount := retryCount c; sockets := sockets c; timers := f (timers c);
     promises := promises c; connected := connected c; log := log c |}.

Definition withPromises (f : gmap string Promise -> gmap string Promise)
    (c : State) : State :=
  {| listeners := listeners c; outgoing := outgoing c; notifier := notifier c;
     retryCount := retryCount c; sockets := sockets c; timers := timers c;
     promises := f (promises c); connected := connected c; log := log c |}.

Definition withConnected (b : bool) (c : State) : State :=
  {| listeners := listeners c; outgoing := outgoing c; notifier := notifier c;
     retryCount := retryCount c; sockets := sockets c; timers := timers c;
     promises := promises c; connected := b; log := log c |}.

Definition effect (e : Effect) (c : State) : State :=
  {| listeners := listeners c; outgoing := outgoing c; notifier := notifier c;
     retryCount := retryCount c; sockets := sockets c; timers := timers c;
     promises := promises c; connected := connected c; log := log c ++ [e] |}.

(** The state at the start of [connect]. *)
Definition initial : State :=
  {| listeners := ∅; outgoing := Some []; notifier := None; retryCount := 0;
     sockets := []; timers := []; promises := ∅; connected := false; log := [] |}.

(** [resolve(data)] and [reject(error)] of the promise of the call [id]: a
    settled promise stays as it is. *)
Definition settle (id : string) (p : Promise) (c : State) : State :=
  match promises c !! id with
  | Some Pending => withPromises <[id := p]> c
  | _ => c
  end.

(** [interface Response] *)
Record Response := { id : value; result : value; error : value }.

Definition closedError : exn :=
  JsError "Cannot send message because the socket has been manually closed".

Definition failedToConnect : value :=
  VObj [("message", VStr "Failed to connect"); ("code", VNum 101)].

Section WithRuntime.

Context `{RT : Runtime}.
Variable options : ConnectOptions.t.

(** The element [obj] of the decoded frame in [parseResponse]: [None] when
    the test raises a [TypeError] ([null] has no properties; an own
    property [hasOwnProperty] of a decoded object is not a function),
    [Some None] when the element is passed over with a warning. *)
Definition checkResponse (obj : value) : option (option Response) :=
  match obj with
  | VNull | VUndefined => None
  | VObj fields =>
      if has "hasOwnProperty" fields then None
      else if has "id" fields && (has "result" fields || truthy (get "error" fields))
      then Some (Some {| id := get "id" fields; result := get "result" fields;
                         error := get "error" fields |})
      else Some None
  | _ => Some None
  end.

(** The [forEach] of [parseResponse]: the responses pushed and the number
    of warnings, or [None] when an element raises. *)
Fixpoint checkResponses (objs : list value) : option (list Response * nat) :=
  match objs with
  | [] => Some ([], O)
  | obj :: rest =>
      match checkResponse obj with
      | None => None
      | Some r =>
          match checkResponses rest with
          | None => None
          | Some (res, warnings) =>
              match r with
              | Some response => Some (response :: res, warnings)
              | None => Some (res, S warnings)
              end
          end
      end
  end.

(** The data of a message event: text, or something that is not a
    string. *)
Inductive MessageData :=
| TextData (json : string)
| BinaryData.

(** [parseResponse(json)]: the responses ([None] for [null]) and the number
    of warnings written. When an element raises, the warnings of the
    elements before it have been written; they are counted with that of
    the handler. *)
Fixpoint warningsBeforeRaise (objs : list value) : nat :=
  match objs with
  | [] => O
  | obj :: rest =>
      match checkResponse obj with
      | None => O
      | Some (Some _) => warningsBeforeRaise rest
      | Some None => S (warningsBeforeRaise rest)
      end
  end.

Definition parseResponse (json : MessageData) : option (list Response) * nat :=
  match json with
  | BinaryData => (None, 1%nat)
  | TextData text =>
      match JSON_parse text with
      | None => (None, 1%nat)
      | Some decoded =>
          let objs := Utils.makeArray decoded in
          match checkResponses objs with
          | Some (res, warnings) => (Some res, warnings)
          | None => (None, S (warningsBeforeRaise objs))
          end
      end
  end.

(** [ws.send(message)] on the socket [ws]. *)
Definition wsSend (ws : nat) (message : string) (c : State) : State :=
  match sockets c !! ws with
  | Some s =>
      withSockets
        <[ws := {| readyState := readyState s; sent := sent s ++ [message] |}]> c
  | None => c
  end.

(** [ws.close()] *)
Definition wsClose (ws : nat) (c : State) : State :=
  match sockets c !! ws with
  | Some s =>
      withSockets
        <[ws := {| readyState :=
                     match readyState s with CLOSED => CLOSED | _ => CLOSING end;
                   sent := sent s |}]> c
  | None => c
  end.

(** [sendAllMessages] of the socket [ws] *)
Definition sendAllMessages (ws : nat) (c : State) : State :=
  match outgoing c with
  | None => wsClose ws c
  | Some messages =>
      withOutgoing (Some []) (fold_left (fun c message => wsSend ws message c) messages c)
  end.

(** [newOutgoingMessageNotifier()] *)
Definition newOutgoingMessageNotifier (c : State) : State :=
  match notifier c with
  | None => c
  | Some ws =>
      match sockets c !! ws with
      | Some {| readyState := OPEN |} => sendAllMessages ws c
      | _ => c
      end
  end.

(** [tryToConnect()] up to the registration of the handlers: a new socket,
    and the notifier now closes over it. *)
Definition tryToConnect (c : State) : State :=
  withNotifier (Some (length (sockets c)))
    (withSockets (fun l => l ++ [{| readyState := CONNECTING; sent := [] |}]) c).

(** [ws.onopen] of the socket [ws]. The promise [connect] awaits is that of
    the first call of [tryToConnect]. *)
Definition onopen (ws : nat) (c : State) : State :=
  let c := sendAllMessages ws c in
  if (ws =? 0)%nat then withConnected true c else c.

(** [options.retryCount || Infinity] *)
Definition retryLimit : Limit :=
  match ConnectOptions.retryCount options with
  | Some n => if n =? 0 then Infinity else Finite n
  | None => Infinity
  end.

(** [retryCount >= limit] *)
Definition reached (count : Z) (limit : Limit) : bool :=
  match limit with
  | Finite n => n <=? count
  | Infinity => false
  end.

(** [options.retryInterval || 2000] *)
Definition retryDelay : Z :=
  match ConnectOptions.retryInterval options with
  | Some n => if n =? 0 then 2000 else n
  | None => 2000
  end.

(** [ws.onerror] *)
Definition onerror (c : State) : State :=
  let retry c := withTimers (fun t => t ++ [retryDelay])
                   (withRetryCount (retryCount c + 1) c) in
  if reached (retryCount c) retryLimit then
    if ConnectOptions.onGeneralError options
    then retry (effect (GeneralError failedToConnect) c)
    else effect (Uncaught (Thrown failedToConnect)) c
  else retry c.

(** The callback of [setTimeout] in [ws.onerror], when the first pending
    timer fires. *)
Definition ontimeout (c : State) : State :=
  match timers c with
  | [] => c
  | _ :: rest =>
      let c := withTimers (fun _ => rest) c in
      match outgoing c with
      | Some _ => tryToConnect c
      | None => c
      end
  end.

(** A call of the closure held in [listeners]. *)
Definition fire (l : Listener) (error data : value) (c : State) : State :=
  match l with
  | OneShot id =>
      let c := withListeners (delete id) c in
      if truthy error then settle id (Rejected (Thrown error)) c
      else if defined data then settle id (Fulfilled data) c
      else c
  | Subscription options =>
      let c := if ListenOptions.errorHandler options && truthy error
               then effect (ErrorHandlerCalled options error) c else c in
      if ListenOptions.listener options && truthy data
      then effect (ListenerCalled options data) c else c
  end.

(** The callback of [res.forEach] in [ws.onmessage]; [Throw] when it
    raises. *)
Definition deliver (res : Response) : M State unit :=
  match id res with
  | VNull =>
      if truthy (error res) then
        if ConnectOptions.onGeneralError options
        then modify (effect (GeneralError (error res)))
        else throw (Thrown (error res))
      else ret tt
  | VStr key =>
      fun c =>
        match listeners c !! key with
        | Some l => (Ok tt, fire l (error res) (nullish (result res) VNull) c)
        | None => (Ok tt, c)
        end
  | _ => ret tt
  end.

Fixpoint forEach {A} (f : A -> M State unit) (l : list A) : M State unit :=
  match l with
  | [] => ret tt
  | x :: rest => f x ;;; forEach f rest
  end.

Definition warnings (n : nat) (c : State) : State :=
  Nat.iter n (effect Warned) c.

(** [ws.onmessage]; an exception leaving the handler is uncaught. *)
Definition onmessage (data : MessageData) (c : State) : State :=
  let '(res, n) := parseResponse data in
  let c := warnings n c in
  match res with
  | None => c
  | Some res =>
      match forEach deliver res c with
      | (Ok _, c') => c'
      | (Throw e, c') => effect (Uncaught e) c'
      end
  end.

(** [sendMessage(method, params, id)]; [id] is [None] when not given. *)
Definition sendMessage (method : string) (params : value) (id : option string)
  : M State unit :=
  let message := [("jsonrpc", VStr "2.0"); ("method", VStr method); ("params", params)] in
  let message :=
    match id with
    | Some i => if negb (String.eqb i "") then set "id" (VStr i) message else message
    | None => message
    end in
  fun c =>
    match outgoing c with
    | None => (Throw closedError, c)
    | Some messages =>
        (Ok tt,
         newOutgoingMessageNotifier
           (withOutgoing (Some (messages ++ [JSON_stringify (VObj message)])) c))
    end.

(** A parameter with the default [null]. *)
Definition orNull (params : value) : value :=
  match params with
  | VUndefined => VNull
  | _ => params
  end.

(** [call(method, params)], where [id] is what [v4.generate()] returns. An
    exception in the executor of the promise rejects it. *)
Definition call (id method : string) (params : value) (c : State) : State :=
  let c := withPromises <[id := Pending]> c in
  let c := withListeners <[id := OneShot id]> c in
  match sendMessage method (orNull params) (Some id) c with
  | (Ok _, c') => c'
  | (Throw e, c') => settle id (Rejected e) c'
  end.

(** [notify(method, params)] *)
Definition notify (method : string) (params : value) : M State unit :=
  sendMessage method (orNull params) None.

(** [listen(method, options)], where [id] is what [v4.generate()]
    returns. *)
Definition listen (id method : string) (opts : ListenOptions.t) : M State unit :=
  modify (withListeners <[id := Subscription opts]>) ;;;
  sendMessage (String.append method ":")
    (if truthy (ListenOptions.params opts) then ListenOptions.params opts else VNull)
    (Some id).

(** [close()] *)
Definition close (c : State) : State :=
  newOutgoingMessageNotifier (withOutgoing None c).

(** What happens to a connection: the calls of the application and the
    events of the transport and of the timers. An [Open] or [Error] event
    comes from a socket the transport has opened or closed. *)
Inductive Action :=
| Call (id method : string) (params : value)
| Notify (method : string) (params : value)
| Listen (id method : string) (opts : ListenOptions.t)
| CloseConnection
| Open (ws : nat)
| Error (ws : nat)
| Message (ws : nat) (data : MessageData)
| Timeout.

Definition setReadyState (ws : nat) (r : ReadyState) (c : State) : State :=
  match sockets c !! ws with
  | Some s => withSockets <[ws := {| readyState := r; sent := sent s |}]> c
  | None => c
  end.

(** One action on the connection. An exception that [notify] or [listen]
    raises goes to the application; the state is the one the call left. *)
Definition step (a : Action) (c : State) : State :=
  match a with
  | Call id method params => call id method params c
  | Notify method params => snd (notify method params c)
  | Listen id method opts => snd (listen id method opts c)
  | CloseConnection => close c
  | Open ws => onopen ws (setReadyState ws OPEN c)
  | Error ws => onerror (setReadyState ws CLOSED c)
  | Message ws data => onmessage data c
  | Timeout => ontimeout c
  end.

Definition run (actions : list Action) (c : State) : State :=
  fold_left (fun c a => step a c) actions c.

(** The current socket fails and the first pending timer then fires. *)
Definition failAndRetry (c : State) : State :=
  step Timeout (step (Error (length (sockets c) - 1)) c).

(** The decoded frame is one response object, for the request [key], with
    the result [data] and no error. *)
Definition successResponse (key : string) (data : value) (decoded : value) : Prop :=
  exists fields,
    decoded = VObj fields
    /\ has "hasOwnProperty" fields = false
    /\ get "id" fields = VStr key
    /\ has "result" fields = true
    /\ get "result" fields = data
    /\ truthy (get "error" fields) = false.

(** The frame [frame] carries such a response. *)
Definition carries (key : string) (frame : string) (data : value) : Prop :=
  exists decoded, JSON_parse frame = Some decoded /\ successResponse key data decoded.

(** The call [key] awaits its response. *)
Definition pendingCall (key : string) (c : State) : Prop :=
  listeners c !! key = Some (OneShot key) /\ promises c !! key = Some Pending.

(** The connection is closed and the sockets have sent what [c0]'s have. *)
Definition closedLike (c0 c : State) : Prop :=
  outgoing c = None /\ map sent (sockets c) = map sent (sockets c0).

End WithRuntime.

End Client.


(** ** A concrete host, to run the engine on examples *)

Module Demo.

Definition quote : string := String (Ascii.ascii_of_nat 34) EmptyString.

Fixpoint escape (s : string) : string :=
  match s with
  | EmptyString => EmptyString
  | String c rest =>
      let n := Ascii.nat_of_ascii c in
      if ((n =? 34) || (n =? 92))%nat
      then String (Ascii.ascii_of_nat 92) (String c (escape rest))
      else String c (escape rest)
  end.

Definition joinWith (sep : string) (parts : list string) : string :=
  match parts with
  | [] => ""
  | p :: rest => fold_left (fun acc x => acc +:+ sep +:+ x) rest p
  end.

(** The text [JSON.stringify] writes for a value whose strings hold no
    control character: a property that is [undefined] is left out, and
    [undefined] in an array is written [null]. *)
Fixpoint stringify (v : value) : string :=
  match v with
  | VUndefined | VNull => "null"
  | VBool true => "true"
  | VBool false => "false"
  | VNum n => pretty n
  | VStr s => quote +:+ escape s +:+ quote
  | VArr items => "[" +:+ joinWith "," (map stringify items) +:+ "]"
  | VObj fields =>
      let members :=
        (fix go (fields : list (string * value)) : list string :=
           match fields with
           | [] => []
           | (k, VUndefined) :: rest => go rest
           | (k, x) :: rest =>
               (quote +:+ escape k +:+ quote +:+ ":" +:+ stringify x) :: go rest
           end) fields in
      "{" +:+ joinWith "," members +:+ "}"
  end.

(** A decoder that knows the texts of the values of [table], and takes
    every other text for malformed. *)
Definition parse (table : list value) (text : string) : option value :=
  List.find (fun v => String.eqb (stringify v) text) table.

Definition runtime (policy : ClosedSend) (table : list value) : Runtime :=
  {| JSON_parse := parse table; JSON_stringify := stringify; sendOnClosed := policy |}.

(** A request object. *)
Definition request (method : string) (params : value) (id : value) : value :=
  VObj [("jsonrpc", VStr "2.0"); ("method", VStr method); ("params", params); ("id", id)].

Definition notification (method : string) (params : value) : value :=
  VObj [("jsonrpc", VStr "2.0"); ("method", VStr method); ("params", params)].

(** The server of [test/server.ts], with a method that fails next to it:
    the method [hello] answers [goodbye]; the emitter [hello] emits after
    it has returned. *)
Definition registry : Server.Registry :=
  Server.registerEmitter "hello" (fun _ _ _ => ret tt)
    (Server.registerMethod "boom" (fun _ _ => Throw (JsError "boom"))
       (Server.registerMethod "hello" (fun _ _ => Ok (VStr "goodbye"))
          Server.noHandlers)).

(** A server with one open connection, that of the client [c]. *)
Definition oneClient : Server.State :=
  {| Server.socks := {[ "c" := 0%nat ]};
     Server.heap := [{| Server.isClosed := false; Server.wire := [] |}];
     Server.emits := []; Server.console := [] |}.

(** A batch whose first request calls the failing method. *)
Definition failingBatch : value :=
  VArr [request "boom" VNull (VStr "1"); request "hello" VNull (VStr "2")].

(** The subscription of [test/client.ts]. *)
Definition subscription : value :=
  request "hello:" (VObj [("username", VStr "Vehmloewff")]) (VStr "sub").

(** A host whose websocket raises on a send after the close, as that of
    [std/ws] does, and which decodes the texts of the examples. *)
Definition host : Runtime :=
  runtime RaiseOnClosed
    [failingBatch; subscription; request "hello" VNull (VStr "7");
     notification "nope" VNull; VArr []].

(** The server once [c] has subscribed to the emitter, and once the
    connection of [c] has then closed. *)
Definition subscribed : Server.State :=
  snd (Server.handleRequest (RT := host) registry "c" (stringify subscription) oneClient).

Definition afterClose : Server.State :=
  snd (Server.onEvent (RT := host) registry "c" 0 Server.Close subscribed).

(** The three responses the emitter of [test/server.ts] causes for the
    subscription [sub], and what a method answers to the call [call1] when
    its result is [0]. *)
Definition emitted (n : Z) : value :=
  VObj [("result", VNum n); ("id", VStr "sub"); ("jsonrpc", VStr "2.0")].

Definition answeredZero : value :=
  VObj [("id", VStr "call1"); ("result", VNum 0); ("jsonrpc", VStr "2.0")].

(** The host of the client in the examples. *)
Definition clientHost : Runtime :=
  runtime RaiseOnClosed [emitted 1; emitted 2; emitted 3; answeredZero].

(** The options of [listen] in [test/client.ts]. *)
Definition listenOptions : ListenOptions.t :=
  {| ListenOptions.params := VObj [("username", VStr "Vehmloewff")];
     ListenOptions.listener := true; ListenOptions.errorHandler := false |}.

(** The options of a client that gives no callback and no retry policy. *)
Definition noOptions : ConnectOptions.t :=
  {| ConnectOptions.onGeneralError := false; ConnectOptions.retryCount := None;
     ConnectOptions.retryInterval := None |}.

(** A client whose first socket has opened. *)
Definition connectedClient : Client.State :=
  Client.onopen 0 (Client.setReadyState 0 Client.OPEN (Client.tryToConnect Client.initial)).

End Demo.

(** ** Notions used to state further properties *)

Module Hex.

(** A lower-case hexadecimal digit, as a code unit. *)
Definition isHexDigit (c : Z) : bool :=
  ((48 <=? c) && (c <=? 57)) || ((97 <=? c) && (c <=? 102)).

End Hex.

Module Batches.

Section WithRuntime.

Context `{RT : Runtime}.

(** A request that calls no emitter and whose method handler, if it has
    one, does not fail. *)
Definition quiet (reg : Server.Registry) (client : string)
    (request : Server.Parsed) : bool :=
  match request with
  | Server.Invalid => true
  | Server.Request r =>
      if negb (endsWith ":" (Server.method r)) then
        match Server.methods reg !! Server.method r with
        | None => true
        | Some handler =>
            match handler (Server.params r) client with
            | Ok _ => true
            | Throw _ => false
            end
        end
      else
        match Server.emitters reg !! Server.method r with
        | None => true
        | Some _ => false
        end
  end.

(** The responses such a request is due: none for a notification. *)
Definition reply (reg : Server.Registry) (client : string)
    (request : Server.Parsed) : list value :=
  match request with
  | Server.Invalid =>
      [VObj [("id", VNull);
             ("error", VObj [("code", VNum (-32600));
                             ("message", VStr "Invalid Request")])]]
  | Server.Request r =>
      if defined (Server.id r) then
        if negb (endsWith ":" (Server.method r)) then
          match Server.methods reg !! Server.method r with
          | None =>
              [VObj [("error", VObj [("code", VNum (-32601));
                                     ("message", VStr "Method not found")]);
                     ("id", Server.id r)]]
          | Some handler =>
              match handler (Server.params r) client with
              | Ok result => [VObj [("id", Server.id r); ("result", result)]]
              | Throw _ => []
              end
          end
        else
          [VObj [("error", VObj [("code", VNum (-32601));
                                 ("message", VStr "Emitter not found")]);
                 ("id", Server.id r)]]
      else []
  end.

(** The frame of one emission. *)
Definition emitFrame (id data : value) : string :=
  JSON_stringify (VObj [("result", data); ("id", id); ("jsonrpc", VStr "2.0")]).

End WithRuntime.

End Batches.

Module Frames.

Section WithRuntime.

Context `{RT : Runtime}.

(** The request object [sendMessage] serializes. *)
Definition requestObject (method : string) (params : value) (id : option string)
  : list (string * value) :=
  [("jsonrpc", VStr "2.0"); ("method", VStr method); ("params", params)]
  ++ match id with
     | Some i => if String.eqb i "" then [] else [("id", VStr i)]
     | None => []
     end.

Definition requestFrame (method : string) (params : value) (id : option string)
  : string :=
  JSON_stringify (VObj (requestObject method params id)).

(** A run of calls of [sendMessage], each given as method, parameters and
    id. *)
Definition sendMessages (messages : list (string * value * option string))
    (c : Client.State) : Client.State :=
  fold_left
    (fun c m => snd (Client.sendMessage (m.1).1 (m.1).2 m.2 c)) messages c.

Definition framesOf (messages : list (string * value * option string)) : list string :=
  map (fun m => requestFrame (m.1).1 (m.1).2 m.2) messages.

(** The decoded frame is one response object whose [id] is [idv], that
    [parseResponse] lets through. *)
Definition responseObject (idv : value) (fields : list (string * value)) : Prop :=
  has "hasOwnProperty" fields = false
  /\ has "id" fields = true
  /\ get "id" fields = idv
  /\ has "result" fields || truthy (get "error" fields) = true.

(** No listener is registered for the id [idv] of a response. *)
Definition unmatched (c : Client.State) (idv : value) : Prop :=
  match idv with
  | VNull => False
  | VStr key => Client.listeners c !! key = None
  | _ => True
  end.

End WithRuntime.

End Frames.

(** ** More examples *)

Module Demo2.

Definition rpcError : value :=
  VObj [("code", VNum (-32601)); ("message", VStr "Method not found")].

(** An error response to the call [call1], one to the subscription [sub]
    that also has a result, a response to a call nobody waits for, one with
    a number as id, an untargeted error, a falsy emission, and two
    batches. *)
Definition callFailed : value :=
  VObj [("error", rpcError); ("id", VStr "call1"); ("jsonrpc", VStr "2.0")].

Definition subFailed : value :=
  VObj [("id", VStr "sub"); ("error", rpcError); ("result", VNum 4);
        ("jsonrpc", VStr "2.0")].

Definition stale : value :=
  VObj [("id", VStr "gone"); ("result", VNum 1); ("jsonrpc", VStr "2.0")].

Definition numbered : value :=
  VObj [("id", VNum 5); ("result", VNum 1); ("jsonrpc", VStr "2.0")].

Definition untargeted : value :=
  VObj [("id", VNull); ("error", rpcError); ("jsonrpc", VStr "2.0")].

Definition emittedZero : value :=
  VObj [("result", VNum 0); ("id", VStr "sub"); ("jsonrpc", VStr "2.0")].

Definition untargetedThenEmitted : value := VArr [untargeted; Demo.emitted 1].

Definition emittedThenNull : value := VArr [Demo.emitted 1; VNull].

Definition host : Runtime :=
  Demo.runtime RaiseOnClosed
    [callFailed; subFailed; stale; numbered; untargeted; emittedZero;
     untargetedThenEmitted; emittedThenNull].

(** A connected client with the call [call1] pending, and one with the
    subscription [sub] of [test/client.ts]. *)
Definition calling : Client.State :=
  Client.call (RT := host) "call1" "hello" VNull Demo.connectedClient.

Definition listening : Client.State :=
  snd (Client.listen (RT := host) "sub" "hello" Demo.listenOptions
         Demo.connectedClient).

(** Options with [onGeneralError], and with a limit of two retries. *)
Definition reporting (limit : option Z) : ConnectOptions.t :=
  {| ConnectOptions.onGeneralError := true; ConnectOptions.retryCount := limit;
     ConnectOptions.retryInterval := None |}.

Definition silent (limit : option Z) : ConnectOptions.t :=
  {| ConnectOptions.onGeneralError := false; ConnectOptions.retryCount := limit;
     ConnectOptions.retryInterval := None |}.

End Demo2.

Module Subscriptions.

Section WithRuntime.

Context `{RT : Runtime}.

(** The decoded frame holds the response objects [responses], all for the
    request [key], as one bare object or as an array. *)
Definition responsesFor (key : string) (decoded : value)
    (responses : list (list (string * value))) : Prop :=
  (decoded = VArr (map VObj responses)
   \/ exists fields, decoded = VObj fields /\ responses = [fields])
  /\ Forall (Frames.responseObject (VStr key)) responses.

Definition carriesAll (key : string) (frame : string)
    (responses : list (list (string * value))) : Prop :=
  exists decoded, JSON_parse frame = Some decoded /\ responsesFor key decoded responses.

(** The calls of the callbacks of [listen] that one response is due:
    [errorHandler] for a truthy error, then [listener] for a truthy
    result, each when given. *)
Definition callbacks (opts : ListenOptions.t) (fields : list (string * value))
  : list Client.Effect :=
  (if ListenOptions.errorHandler opts && truthy (get "error" fields)
   then [Client.ErrorHandlerCalled opts (get "error" fields)] else [])
  ++ (if ListenOptions.listener opts && truthy (get "result" fields)
      then [Client.ListenerCalled opts (get "result" fields)] else []).

(** Every closure of [call] is held under its own id, as [call] enters
    it. *)
Definition wellKeyed (c : Client.State) : Prop :=
  forall k id, Client.listeners c !! k = Some (Client.OneShot id) -> k = id.

(** The action registers a listener under the id [key]. *)
Definition reuses (key : string) (a : Client.Action) : bool :=
  match a with
  | Client.Call id _ _ => String.eqb id key
  | Client.Listen id _ _ => String.eqb id key
  | _ => false
  end.

End WithRuntime.

End Subscriptions.

Module Demo3.

(** The error the server answers to a subscription to an emitter nobody
    registered. *)
Definition emitterNotFound : value :=
  VObj [("error", VObj [("code", VNum (-32601)); ("message", VStr "Emitter not found")]);
        ("id", VStr "sub"); ("jsonrpc", VStr "2.0")].

(** A call of a method nobody registered, with the id [abc]. *)
Definition unknownCall : value := Demo.request "nope" VNull (VStr "abc").

(** A host that decodes the emissions 1, 2 and 3 for [sub], alone and in a
    batch, that error, and that call. *)
Definition host : Runtime :=
  Demo.runtime RaiseOnClosed
    [Demo.emitted 1; emitterNotFound; VArr [Demo.emitted 2; Demo.emitted 3];
     unknownCall; Demo.failingBatch].

(** Two responses of the server, before the version tag is set. *)
Definition answer (id : string) (result : value) : list (string * value) :=
  [("id", VStr id); ("result", result)].

End Demo3.

(** * Properties *)

(** ** The handshake encoder *)

Section EncoderFacts.

Import Utils.

Lemma fold_lxor_start (key : list Z) (x : Z) :
  fold_left Z.lxor key x = Z.lxor x (fold_left Z.lxor key 0).
Proof.
  revert x. induction key as [|k key IH]; intros x; cbn [fold_left].
  - now rewrite Z.lxor_0_r.
  - rewrite Z.lxor_0_l, (IH (Z.lxor x k)), (IH k). apply Z.lxor_assoc.
Qed.

Lemma lxor_byte_range (a b : Z) :
  byte_range a -> byte_range b -> byte_range (Z.lxor a b).
Proof.
  unfold byte_range. intros Ha Hb.
  assert (Hnn : 0 <= Z.lxor a b) by (apply Z.lxor_nonneg; lia).
  split; [exact Hnn|].
  destruct (Z.eq_dec a 0) as [->|Ha0]; [rewrite Z.lxor_0_l; lia|].
  destruct (Z.eq_dec b 0) as [->|Hb0]; [rewrite Z.lxor_0_r; lia|].
  destruct (Z.eq_dec (Z.lxor a b) 0) as [->|Hx0]; [lia|].
  change 256 with (2 ^ 8). apply Z.log2_lt_pow2; [lia|].
  pose proof (Z.log2_lxor a b ltac:(lia) ltac:(lia)) as Hlog.
  assert (Z.log2 a < 8) by (apply Z.log2_lt_pow2; simpl; lia).
  assert (Z.log2 b < 8) by (apply Z.log2_lt_pow2; simpl; lia).
  lia.
Qed.

Lemma key_fold_byte_range (key : list Z) :
  Forall byte_range key -> byte_range (fold_left Z.lxor key 0).
Proof.
  intros Hkey.
  enough (Hgen : forall x, byte_range x -> byte_range (fold_left Z.lxor key x))
    by (apply Hgen; unfold byte_range; lia).
  induction Hkey as [|k key Hk _ IH]; intros x Hx; cbn [fold_left]; [exact Hx|].
  apply IH. now apply lxor_byte_range.
Qed.

Lemma byteHex_table :
  forallb byteHex_reads_back (map Z.of_nat (seq 0 256)) = true.
Proof. vm_compute. reflexivity. Qed.

Lemma byteHex_byte (n : Z) :
  byte_range n ->
  exists h l, byteHex n = [h; l]
    /\ isLineTerminator h = false /\ isLineTerminator l = false
    /\ parseInt16 [h; l] = Some n.
Proof.
  intros Hn. pose proof byteHex_table as Ht.
  rewrite forallb_forall in Ht.
  specialize (Ht n). unfold byte_range in Hn.
  assert (Hin : In n (map Z.of_nat (seq 0 256))).
  { apply in_map_iff. exists (Z.to_nat n). split; [lia|].
    apply in_seq. lia. }
  specialize (Ht Hin). unfold byteHex_reads_back in Ht.
  destruct (byteHex n) as [|h [|l [|? ?]]]; try discriminate.
  exists h, l.
  destruct (isLineTerminator h), (isLineTerminator l); simpl in Ht;
    try discriminate.
  destruct (parseInt16 [h; l]) as [m|]; [|discriminate].
  apply Z.eqb_eq in Ht. subst m. auto.
Qed.

Lemma decrypt_encrypt_bytes (key s : jsstring) :
  Forall byte_range key -> Forall byte_range s ->
  decrypt key (encrypt key s) = s.
Proof.
  intros Hkey Hs. pose proof (key_fold_byte_range key Hkey) as HK.
  unfold decrypt, encrypt, textToChars.
  induction Hs as [|c s Hc _ IH]; [reflexivity|].
  simpl map at 4. simpl concat.
  assert (Hx : byte_range (applyKeyToChar key c)).
  { unfold applyKeyToChar, textToChars. rewrite fold_lxor_start.
    now apply lxor_byte_range. }
  destruct (byteHex_byte _ Hx) as (h & l & Hhl & Hh & Hl & Hparse).
  rewrite Hhl. simpl app. simpl matchPairs. rewrite Hh, Hl.
  simpl map. rewrite Hparse. simpl default. f_equal; [|exact IH].
  unfold applyKeyToChar, textToChars.
  rewrite (fold_lxor_start key c), fold_lxor_start.
  rewrite Z.lxor_assoc, Z.lxor_nilpotent, Z.lxor_0_r.
  unfold fromCharCode, byte_range in *. apply Z.mod_small. lia.
Qed.

End EncoderFacts.

(** C6, as the code has it. For every string [s] whose code units are all
    below 256 (the printable ASCII range 0x20..0x7E and Latin-1 with it),
    the handshake encoder
    [paramsEncoder = makeEncryptor('nothing-secret')] satisfies
    [decrypt(encrypt(s)) == s]. *)
Theorem paramsEncoder_roundtrip (s : Utils.jsstring) :
  Forall (fun c => 0 <= c < 256) s ->
  Shared.paramsDecrypt (Shared.paramsEncrypt s) = s.
Proof.
  intros Hs. apply decrypt_encrypt_bytes; [|exact Hs].
  unfold Shared.paramsKey. vm_compute Utils.codes.
  repeat constructor; unfold Utils.byte_range; lia.
Qed.

Lemma paramsEncoder_roundtrip_witness :
  Shared.paramsDecrypt (Shared.paramsEncrypt (Utils.codes "{ auth: 'secure' }"))
  = Utils.codes "{ auth: 'secure' }".
Proof.
  apply paramsEncoder_roundtrip. vm_compute Utils.codes.
  repeat constructor; lia.
Defined.

(** C6 as stated fails on serialized JSON in general: [JSON.stringify]
    writes a character above U+00FF as it is, and the text of the JSON
    string that holds the euro sign (a quote, code unit 8364, a quote) does
    not come back. *)
Lemma paramsEncoder_loses_wide_characters :
  Shared.paramsDecrypt (Shared.paramsEncrypt [34; 8364; 34]) <> [34; 8364; 34].
Proof. vm_compute. discriminate. Qed.

(** Outside that range the encoder loses information: [byteHex] keeps the
    last two hex digits, so the euro sign (code unit 8364) comes back as
    code unit 172. *)
Example encoder_truncates_wide_code_units :
  Shared.paramsDecrypt (Shared.paramsEncrypt [8364]) = [172].
Proof. reflexivity. Qed.

(** ** The monad *)

Lemma asyncForEachFrom_app {St A} (cb : A -> nat -> M St unit)
    (pre post : list A) (index : nat) (s : St) :
  asyncForEachFrom index (pre ++ post) cb s =
  match asyncForEachFrom index pre cb s with
  | (Ok _, s') => asyncForEachFrom (index + length pre) post cb s'
  | (Throw e, s') => (Throw e, s')
  end.
Proof.
  revert index s. induction pre as [|x pre IH]; intros index s; simpl.
  - unfold ret. now rewrite Nat.add_0_r.
  - unfold bind. destruct (cb x index s) as [[[]|e] s']; [|reflexivity].
    rewrite IH. now replace (S index + length pre)%nat with (index + S (length pre))%nat by lia.
Qed.

(** ** The server *)

Section ServerFacts.

Import Server.
Context `{RT : Runtime}.

Lemma sockSend_open (sock : nat) (frame : string) (st : State) :
  isOpen sock st = true ->
  sockSend sock frame st = (Ok tt, written sock frame st).
Proof.
  unfold isOpen, sockSend, written. intros Hopen.
  destruct (heap st !! sock) as [ws|]; [|discriminate].
  destruct (isClosed ws); [discriminate|reflexivity].
Qed.

Lemma stamp_object (message : value) :
  isObject message = true -> stamp message = Ok (stamped message).
Proof. destruct message; simpl; intros; try discriminate; reflexivity. Qed.

Lemma sendEach_batch (sock length : nat) (messages stamped_so_far : list value)
    (st : State) :
  forallb isObject messages = true -> length <> 1%nat ->
  sendEach sock length messages stamped_so_far st =
  (Ok (stamped_so_far ++ map stamped messages), st).
Proof.
  intros Hobj Hlen. revert stamped_so_far.
  induction messages as [|m messages IH]; intros acc; simpl.
  - now rewrite app_nil_r.
  - simpl in Hobj. apply andb_prop in Hobj as [Hm Hrest].
    unfold bind, await. rewrite (stamp_object m Hm).
    destruct (Nat.eqb_spec length 1) as [->|_]; [congruence|].
    unfold ret at 1. rewrite (IH Hrest). now rewrite <- app_assoc.
Qed.

Lemma send_objects (sock : nat) (message : value) (st : State) :
  isOpen sock st = true ->
  forallb isObject (Utils.makeArray message) = true ->
  send sock message st = (Ok tt, written sock (wireForm (Utils.makeArray message)) st).
Proof.
  intros Hopen Hobj. unfold send. set (messages := Utils.makeArray message) in *.
  destruct messages as [|m [|m' rest]] eqn:Hm.
  - unfold bind. rewrite sendEach_batch by (simpl; auto).
    simpl. now apply sockSend_open.
  - simpl in Hobj. rewrite andb_true_r in Hobj.
    unfold bind. simpl. unfold bind, await. rewrite (stamp_object m Hobj).
    rewrite (sockSend_open _ _ _ Hopen). reflexivity.
  - unfold bind. rewrite sendEach_batch by (simpl; auto).
    simpl. now apply sockSend_open.
Qed.

Lemma get_set (k : string) (v : value) (fields : list (string * value)) :
  get k (set k v fields) = v.
Proof.
  induction fields as [|[k' v'] fields IH]; cbn [get set].
  - now rewrite String.eqb_refl.
  - destruct (String.eqb k k') eqn:Hk; cbn [get].
    + now rewrite String.eqb_refl.
    + now rewrite Hk.
Qed.

Lemma get_set_ne (k k' : string) (v : value) (fields : list (string * value)) :
  k <> k' -> get k (set k' v fields) = get k fields.
Proof.
  intros Hne. induction fields as [|[k0 v0] fields IH]; cbn [get set].
  - destruct (String.eqb_spec k k'); [contradiction|reflexivity].
  - destruct (String.eqb_spec k' k0) as [->|Hk0]; cbn [get].
    + destruct (String.eqb_spec k k0); [contradiction|reflexivity].
    + destruct (String.eqb k k0); [reflexivity|exact IH].
Qed.

End ServerFacts.

(** C7. Every [send] of the server on an open socket writes exactly one
    frame. A message object is written as that bare object with [jsonrpc]
    set to ["2.0"], and so is an array that holds exactly that one object;
    an array of no or of two and more objects is written as the array of
    these objects, in order, each with [jsonrpc] set to ["2.0"]; so the
    empty list of responses is sent as the empty array. Setting the tag
    changes no other property of a message. *)
Theorem send_wire_form `{RT : Runtime} (sock : nat) (st : Server.State)
    (fields : list (string * value)) (batch : list (list (string * value))) :
  Server.isOpen sock st = true ->
  Server.send sock (VObj fields) st
  = (Ok tt,
     Server.written sock
       (JSON_stringify (VObj (set "jsonrpc" (VStr "2.0") fields))) st)
  /\ Server.send sock (VArr [VObj fields]) st
     = (Ok tt,
        Server.written sock
          (JSON_stringify (VObj (set "jsonrpc" (VStr "2.0") fields))) st)
  /\ (length batch <> 1%nat ->
      Server.send sock (VArr (map VObj batch)) st
      = (Ok tt,
         Server.written sock
           (JSON_stringify
              (VArr (map (fun message => VObj (set "jsonrpc" (VStr "2.0") message))
                       batch))) st))
  /\ Server.send sock (VArr []) st
     = (Ok tt, Server.written sock (JSON_stringify (VArr [])) st)
  /\ get "jsonrpc" (set "jsonrpc" (VStr "2.0") fields) = VStr "2.0"
  /\ (forall k, k <> "jsonrpc" ->
      get k (set "jsonrpc" (VStr "2.0") fields) = get k fields).
Proof.
  intros Hopen. split; [|split; [|split; [|split; [|split]]]].
  - exact (send_objects sock (VObj fields) st Hopen eq_refl).
  - exact (send_objects sock (VArr [VObj fields]) st Hopen eq_refl).
  - intros Hlen.
    assert (Hobj : forallb Server.isObject (map VObj batch) = true)
      by (clear; induction batch; [reflexivity|assumption]).
    rewrite (send_objects sock (VArr (map VObj batch)) st Hopen Hobj).
    cbn [Utils.makeArray]. do 3 f_equal.
    destruct batch as [|m [|m' rest]]; [reflexivity|contradiction|].
    unfold Server.wireForm. cbn [map]. do 2 f_equal.
    f_equal. f_equal. rewrite map_map. reflexivity.
  - exact (send_objects sock (VArr []) st Hopen eq_refl).
  - apply get_set.
  - intros k Hk. apply get_set_ne. congruence.
Qed.

Lemma send_wire_form_witness :
  Server.send (RT := Demo.host) 0 (VObj (Demo3.answer "7" (VStr "goodbye")))
    Demo.oneClient
  = (Ok tt,
     Server.written 0
       (Demo.stringify
          (VObj [("id", VStr "7"); ("result", VStr "goodbye"); ("jsonrpc", VStr "2.0")]))
       Demo.oneClient)
  /\ Server.send (RT := Demo.host) 0
       (VArr [VObj (Demo3.answer "1" (VNum 1)); VObj (Demo3.answer "2" (VNum 2))])
       Demo.oneClient
     = (Ok tt,
        Server.written 0
          (Demo.stringify
             (VArr [VObj [("id", VStr "1"); ("result", VNum 1); ("jsonrpc", VStr "2.0")];
                    VObj [("id", VStr "2"); ("result", VNum 2); ("jsonrpc", VStr "2.0")]]))
          Demo.oneClient).
Proof.
  pose proof (send_wire_form (RT := Demo.host) 0%nat Demo.oneClient
                (Demo3.answer "7" (VStr "goodbye"))
                [Demo3.answer "1" (VNum 1); Demo3.answer "2" (VNum 2)] eq_refl)
    as (Hone & _ & Hmany & _).
  split; [exact Hone|]. apply Hmany. discriminate.
Defined.

(** C8. A raw input that [JSON.parse] does not decode makes the server
    write exactly one frame to the socket of the client, the untargeted
    response [{id: null, error: {code: -32700, message: "Parse error"}}]
    with the version tag, and do nothing else: the rest of the state is as
    it was. *)
Theorem parse_error_response `{RT : Runtime} (reg : Server.Registry)
    (client raw : string) (sock : nat) (st : Server.State) :
  JSON_parse raw = None ->
  Server.socks st !! client = Some sock ->
  Server.isOpen sock st = true ->
  Server.handleRequest reg client raw st
  = (Ok tt,
     Server.written sock
       (JSON_stringify
          (VObj [("id", VNull);
                 ("error", VObj [("code", VNum (-32700));
                                 ("message", VStr "Parse error")]);
                 ("jsonrpc", VStr "2.0")])) st).
Proof.
  intros Hparse Hsock Hopen. unfold Server.handleRequest.
  rewrite Hsock. unfold Server.parseRequest. rewrite Hparse.
  now rewrite (send_objects sock Server.parseError st Hopen eq_refl).
Qed.

Lemma parse_error_response_witness :
  Server.handleRequest (RT := Demo.host) Demo.registry "c" "{oops" Demo.oneClient
  = (Ok tt,
     Server.written 0
       (Demo.stringify
          (VObj [("id", VNull);
                 ("error", VObj [("code", VNum (-32700));
                                 ("message", VStr "Parse error")]);
                 ("jsonrpc", VStr "2.0")])) Demo.oneClient).
Proof.
  exact (parse_error_response (RT := Demo.host) Demo.registry "c" "{oops" 0%nat
           Demo.oneClient eq_refl eq_refl eq_refl).
Defined.

(** *** Batches whose handlers do not fail *)

Section BatchMore.

Import Server.
Context `{RT : Runtime}.

Lemma written_isOpen (sock : nat) (frame : string) (st : State) :
  isOpen sock st = true -> isOpen sock (written sock frame st) = true.
Proof.
  unfold isOpen, written. destruct (heap st !! sock) as [ws|] eqn:Hws;
    [|discriminate].
  intros Hopen. cbn [heap withHeap].
  rewrite list_lookup_insert_eq by (now apply lookup_lt_Some in Hws).
  exact Hopen.
Qed.

Lemma dispatch_quiet (reg : Registry) (client : string) (sock index : nat)
    (request : Parsed) (b : Batch) :
  Batches.quiet reg client request = true ->
  dispatch reg client sock request index b
  = (Ok tt, {| responses := responses b ++ Batches.reply reg client request;
               server := server b |}).
Proof.
  destruct request as [|r]; cbn [Batches.quiet Batches.reply dispatch].
  - reflexivity.
  - destruct (negb (endsWith ":" (method r))).
    + destruct (methods reg !! method r) as [handler|].
      * unfold bind, await. destruct (handler (params r) client); [|discriminate].
        intros _. destruct (defined (id r)); [reflexivity|].
        unfold ret. rewrite app_nil_r. now destruct b.
      * intros _. destruct (defined (id r)); [reflexivity|].
        unfold ret. rewrite app_nil_r. now destruct b.
    + destruct (emitters reg !! method r); [discriminate|].
      intros _. destruct (defined (id r)); [reflexivity|].
      unfold ret. rewrite app_nil_r. now destruct b.
Qed.

Lemma asyncForEachFrom_quiet (reg : Registry) (client : string) (sock index : nat)
    (requests : list Parsed) (b : Batch) :
  forallb (Batches.quiet reg client) requests = true ->
  asyncForEachFrom index requests (dispatch reg client sock) b
  = (Ok tt,
     {| responses := responses b ++ concat (map (Batches.reply reg client) requests);
        server := server b |}).
Proof.
  revert index b. induction requests as [|r requests IH]; intros index b Hq.
  - cbn. unfold ret. rewrite app_nil_r. now destruct b.
  - cbn [forallb] in Hq. apply andb_prop in Hq as [Hr Hrest].
    cbn [asyncForEachFrom map concat]. unfold bind.
    rewrite (dispatch_quiet _ _ _ _ _ _ Hr), (IH _ _ Hrest).
    cbn [responses server]. now rewrite app_assoc.
Qed.

Lemma reply_objects (reg : Registry) (client : string) (requests : list Parsed) :
  forallb isObject (concat (map (Batches.reply reg client) requests)) = true.
Proof.
  induction requests as [|r requests IH]; [reflexivity|].
  cbn [map concat]. rewrite forallb_app, IH, andb_true_r.
  destruct r as [|r]; cbn [Batches.reply]; [reflexivity|].
  repeat case_match; reflexivity.
Qed.

End BatchMore.

Lemma handleRequest_quiet `{RT : Runtime} (reg : Server.Registry)
    (client raw : string) (sock : nat) (requests : list Server.Parsed)
    (st : Server.State) :
  Server.socks st !! client = Some sock ->
  Server.isOpen sock st = true ->
  Server.parseRequest raw = Some requests ->
  forallb (Batches.quiet reg client) requests = true ->
  Server.handleRequest reg client raw st
  = (Ok tt,
     Server.written sock
       (Server.wireForm (concat (map (Batches.reply reg client) requests))) st).
Proof.
  intros Hsock Hopen Hparse Hquiet. unfold Server.handleRequest.
  rewrite Hsock, Hparse. unfold asyncForEach.
  rewrite (asyncForEachFrom_quiet reg client sock 0 requests _ Hquiet).
  cbn [Server.responses Server.server app].
  apply (send_objects sock (VArr _) st Hopen). apply reply_objects.
Qed.

(** C9. A request the server receives that is valid, names a method (no
    colon at the end) and finds no handler registered is answered by
    [{error: {code: -32601, message: "Method not found"}, id: <the id of
    the request>}] when it has an id, and by no response when it has none.
    Received alone, the response is the one frame the server writes, as a
    bare object with the version tag; without an id the frame is the empty
    batch. Received in a batch whose other requests call no emitter and
    fail in no handler, the response stands at the place of the request
    among the responses of the batch, and nothing stands there when the
    request has no id. *)
Theorem method_not_found `{RT : Runtime} (reg : Server.Registry)
    (client raw name : string) (sock : nat) (st : Server.State)
    (fields : list (string * value)) :
  Server.socks st !! client = Some sock ->
  Server.isOpen sock st = true ->
  get "jsonrpc" fields = VStr "2.0" ->
  get "method" fields = VStr name ->
  endsWith ":" name = false ->
  Server.methods reg !! name = None ->
  let notFound :=
    [("error", VObj [("code", VNum (-32601)); ("message", VStr "Method not found")]);
     ("id", get "id" fields)] in
  (JSON_parse raw = Some (VObj fields) ->
   Server.handleRequest reg client raw st
   = (Ok tt,
      Server.written sock
        (if defined (get "id" fields)
         then JSON_stringify (VObj (notFound ++ [("jsonrpc", VStr "2.0")]))
         else JSON_stringify (VArr [])) st))
  /\ (forall before after : list value,
        JSON_parse raw = Some (VArr (before ++ VObj fields :: after)) ->
        forallb (Batches.quiet reg client) (map Server.validate before) = true ->
        forallb (Batches.quiet reg client) (map Server.validate after) = true ->
        Server.handleRequest reg client raw st
        = (Ok tt,
           Server.written sock
             (Server.wireForm
                (concat (map (Batches.reply reg client) (map Server.validate before))
                 ++ (if defined (get "id" fields) then [VObj notFound] else [])
                 ++ concat (map (Batches.reply reg client)
                              (map Server.validate after)))) st)).
Proof.
  intros Hsock Hopen Hversion Hmethod Hcolon Hnone notFound.
  set (request := {| Server.method := name; Server.id := get "id" fields;
                     Server.params := get "params" fields |}).
  assert (Hvalid : Server.validate (VObj fields) = Server.Request request).
  { cbn [Server.validate]. now rewrite Hversion, Hmethod. }
  assert (Hquiet : Batches.quiet reg client (Server.Request request) = true).
  { cbn [Batches.quiet Server.method request]. subst request. cbn [Server.method].
    now rewrite Hcolon, Hnone. }
  assert (Hreply : Batches.reply reg client (Server.Request request)
                   = if defined (get "id" fields) then [VObj notFound] else []).
  { cbn [Batches.reply]. subst request. cbn [Server.method Server.id].
    now rewrite Hcolon, Hnone. }
  split.
  - intros Hparse.
    assert (Hreq : Server.parseRequest raw = Some [Server.Request request]).
    { unfold Server.parseRequest. rewrite Hparse. cbn [Utils.makeArray map].
      now rewrite Hvalid. }
    rewrite (handleRequest_quiet reg client raw sock _ st Hsock Hopen Hreq)
      by (cbn [forallb]; now rewrite Hquiet).
    cbn [map concat]. rewrite Hreply, app_nil_r.
    destruct (defined (get "id" fields)); reflexivity.
  - intros before after Hparse Hbefore Hafter.
    assert (Hreq : Server.parseRequest raw
                   = Some (map Server.validate before
                           ++ Server.Request request :: map Server.validate after)).
    { unfold Server.parseRequest. rewrite Hparse. cbn [Utils.makeArray].
      rewrite map_app. cbn [map]. rewrite Hvalid.
      now destruct (map Server.validate before). }
    rewrite (handleRequest_quiet reg client raw sock _ st Hsock Hopen Hreq).
    + rewrite map_app, concat_app. cbn [map concat]. now rewrite Hreply.
    + rewrite forallb_app. cbn [forallb]. now rewrite Hbefore, Hquiet, Hafter.
Qed.

Lemma method_not_found_witness :
  Server.handleRequest (RT := Demo3.host) Demo.registry "c"
    (Demo.stringify Demo3.unknownCall) Demo.oneClient
  = (Ok tt,
     Server.written 0
       (Demo.stringify
          (VObj [("error", VObj [("code", VNum (-32601));
                                 ("message", VStr "Method not found")]);
                 ("id", VStr "abc"); ("jsonrpc", VStr "2.0")]))
       Demo.oneClient).
Proof.
  exact (proj1 (method_not_found (RT := Demo3.host) Demo.registry "c"
                  (Demo.stringify Demo3.unknownCall) "nope" 0%nat Demo.oneClient
                  [("jsonrpc", VStr "2.0"); ("method", VStr "nope");
                   ("params", VNull); ("id", VStr "abc")]
                  eq_refl eq_refl eq_refl eq_refl eq_refl eq_refl) eq_refl).
Defined.

Section BatchFacts.

Import Server.
Context `{RT : Runtime}.

(** The callback of [handleRequest] does not read its index. *)
Lemma asyncForEachFrom_dispatch (reg : Registry) (client : string) (sock : nat)
    (requests : list Parsed) (i j : nat) (b : Batch) :
  asyncForEachFrom i requests (dispatch reg client sock) b
  = asyncForEachFrom j requests (dispatch reg client sock) b.
Proof.
  revert i j b. induction requests as [|r requests IH]; intros i j b;
    [reflexivity|].
  cbn [asyncForEachFrom]. unfold bind.
  change (dispatch reg client sock r i b) with (dispatch reg client sock r j b).
  destruct (dispatch reg client sock r j b) as [[[]|e] b']; [|reflexivity].
  apply IH.
Qed.

Lemma dispatch_failing_method (reg : Registry) (client : string) (sock index : nat)
    (request : JsonRpcRequest) (handler : MethodHandler) (e : exn) (b : Batch) :
  endsWith ":" (method request) = false ->
  methods reg !! method request = Some handler ->
  handler (params request) client = Throw e ->
  dispatch reg client sock (Request request) index b = (Throw e, b).
Proof.
  intros Hcolon Hhandler Hfail. unfold dispatch.
  rewrite Hcolon, Hhandler. cbn [negb]. unfold bind, await.
  now rewrite Hfail.
Qed.

Lemma emit_closed (sock : nat) (id data : value) (st : State) :
  hasClosed sock st = true ->
  emit sock id data st
  = (match sendOnClosed with
     | RaiseOnClosed => Throw ConnectionReset
     | IgnoreOnClosed => Ok tt
     end, st).
Proof.
  unfold hasClosed. intros Hclosed.
  unfold emit, send. cbn [Utils.makeArray length sendEach stamp].
  unfold bind, await. cbn [Nat.eqb]. unfold sockSend.
  destruct (heap st !! sock) as [ws|]; [|discriminate].
  rewrite Hclosed. destruct sendOnClosed; reflexivity.
Qed.

End BatchFacts.

(** C1, as the code has it. A failure signalled by a method handler is not
    contained: [handleRequest] ends with that failure. The requests before
    the failing one have been processed; no response is appended for the
    failing request, whether it has an id or not; the requests after it are
    not processed; and the accumulated responses are not sent: the state of
    the server is the one reached after the requests before. *)
Theorem handler_failure_ends_batch `{RT : Runtime} (reg : Server.Registry)
    (client raw : string) (sock : nat) (st : Server.State)
    (before after : list Server.Parsed) (request : Server.JsonRpcRequest)
    (handler : value -> string -> Result value) (e : exn) (b : Server.Batch) :
  Server.socks st !! client = Some sock ->
  Server.parseRequest raw = Some (before ++ Server.Request request :: after) ->
  asyncForEach before (Server.dispatch reg client sock)
    {| Server.responses := []; Server.server := st |} = (Ok tt, b) ->
  endsWith ":" (Server.method request) = false ->
  Server.methods reg !! Server.method request = Some handler ->
  handler (Server.params request) client = Throw e ->
  Server.handleRequest reg client raw st = (Throw e, Server.server b).
Proof.
  intros Hsock Hparse Hbefore Hcolon Hhandler Hfail.
  unfold Server.handleRequest. rewrite Hsock, Hparse.
  unfold asyncForEach in *. rewrite asyncForEachFrom_app, Hbefore.
  cbn [asyncForEachFrom]. unfold bind at 1.
  now rewrite (dispatch_failing_method reg client sock _ request handler e b).
Qed.

Lemma handler_failure_ends_batch_witness :
  Server.handleRequest (RT := Demo.host) Demo.registry "c"
    (Demo.stringify Demo.failingBatch) Demo.oneClient
  = (Throw (JsError "boom"), Demo.oneClient).
Proof.
  exact (handler_failure_ends_batch (RT := Demo.host) Demo.registry "c"
           (Demo.stringify Demo.failingBatch) 0%nat Demo.oneClient []
           [Server.Request {| Server.method := "hello"; Server.id := VStr "2";
                              Server.params := VNull |}]
           {| Server.method := "boom"; Server.id := VStr "1";
              Server.params := VNull |}
           (fun _ _ => Throw (JsError "boom")) (JsError "boom")
           {| Server.responses := []; Server.server := Demo.oneClient |}
           eq_refl eq_refl eq_refl eq_refl eq_refl eq_refl).
Defined.

(** C1 as stated fails: the batch [[boom (id 1), hello (id 2)]], whose
    first handler signals a failure, is not answered; no frame is written
    and the request [hello] is not processed. *)
Lemma handler_failure_not_contained :
  ~ Server.batchAnswered (RT := Demo.host) Demo.registry "c"
      (Demo.stringify Demo.failingBatch) Demo.oneClient.
Proof.
  intros (st' & sock & ws & ws' & frame & Hrun & _).
  vm_compute in Hrun. discriminate Hrun.
Qed.

(** C3, as the code has it. [emit] asks nothing about the connection: on a
    socket that has closed it hands the frame to the transport all the
    same, and what comes of it is what the transport makes of a send on a
    closed socket. The state of the server stays as it was; with a
    transport that raises there, [emit] raises. *)
Theorem emit_after_close `{RT : Runtime} (sock : nat) (id data : value)
    (st : Server.State) :
  Server.hasClosed sock st = true ->
  Server.emit sock id data st
  = (match sendOnClosed with
     | RaiseOnClosed => Throw ConnectionReset
     | IgnoreOnClosed => Ok tt
     end, st).
Proof. apply emit_closed. Qed.

Lemma emit_after_close_witness :
  Server.emit (RT := Demo.host) 0 (VStr "sub") (VNum 2) Demo.afterClose
  = (Throw ConnectionReset, Demo.afterClose).
Proof.
  exact (emit_after_close (RT := Demo.host) 0%nat (VStr "sub") (VNum 2)
           Demo.afterClose eq_refl).
Defined.

(** C3 as stated fails: once the connection of the subscriber has closed,
    the [emit] closure of its subscription raises, with a transport that
    raises on a send to a closed socket. *)
Lemma emit_after_close_raises :
  ~ Server.emitDoesNotThrow (RT := Demo.host) 0 (VNum 2) Demo.afterClose.
Proof.
  intros (st' & Hrun). vm_compute in Hrun. discriminate Hrun.
Qed.

(** ** The client *)

Section ClientFacts.

Import Client.
Context `{RT : Runtime}.
Variable options : ConnectOptions.t.

Lemma get_has (k : string) (fields : list (string * value)) :
  get k fields <> VUndefined -> has k fields = true.
Proof.
  induction fields as [|[k' v] fields IH]; cbn [get has]; [congruence|].
  destruct (String.eqb k k'); [reflexivity|exact IH].
Qed.

Lemma truthy_nullish (data : value) :
  truthy (nullish data VNull) = truthy data.
Proof. destruct data; reflexivity. Qed.

Lemma nullish_truthy (data : value) :
  truthy data = true -> nullish data VNull = data.
Proof. destruct data; simpl; intros; try discriminate; reflexivity. Qed.

Lemma nullish_defined (data : value) :
  defined data = true -> nullish data VNull = data.
Proof. destruct data; simpl; intros; try discriminate; reflexivity. Qed.

(** A frame that carries one success response is handed to the listener of
    its id, if there is one. *)
Lemma onmessage_carries (key frame : string) (data : value) (c : State) :
  carries key frame data ->
  exists error,
    truthy error = false
    /\ onmessage options (TextData frame) c
       = match listeners c !! key with
         | Some l => fire l error (nullish data VNull) c
         | None => c
         end.
Proof.
  intros (decoded & Hparse & fields & -> & Hown & Hid & Hres & Hdata & Herr).
  exists (get "error" fields). split; [exact Herr|].
  unfold onmessage, parseResponse. rewrite Hparse.
  cbn [Utils.makeArray checkResponses checkResponse].
  rewrite Hown, Hres, (get_has "id" fields) by (rewrite Hid; discriminate).
  cbn [andb orb forEach]. change (warnings 0 c) with c. unfold bind, deliver.
  cbn [id error result]. rewrite Hid, Hdata.
  destruct (listeners c !! key); reflexivity.
Qed.

Lemma fire_subscription (opts : ListenOptions.t) (error data : value) (c : State) :
  truthy error = false ->
  fire (Subscription opts) error (nullish data VNull) c
  = if ListenOptions.listener opts && truthy data
    then effect (ListenerCalled opts data) c
    else c.
Proof.
  intros Herr. unfold fire. rewrite Herr, andb_false_r, truthy_nullish.
  destruct (ListenOptions.listener opts); [|reflexivity].
  destruct (truthy data) eqn:Hd; [|reflexivity].
  cbn [andb]. now rewrite (nullish_truthy data Hd).
Qed.

(** *** What the sending helpers leave alone *)

Lemma withSockets_id (c : State) : withSockets (fun _ => sockets c) c = c.
Proof. now destruct c. Qed.

Lemma wsSend_shape (ws : nat) (message : string) (c : State) :
  exists ss, wsSend ws message c = withSockets (fun _ => ss) c.
Proof.
  unfold wsSend. destruct (sockets c !! ws) as [s|].
  - eexists. reflexivity.
  - exists (sockets c). now rewrite withSockets_id.
Qed.

Lemma wsSend_all_shape (ws : nat) (messages : list string) (c : State) :
  exists ss,
    fold_left (fun c message => wsSend ws message c) messages c
    = withSockets (fun _ => ss) c.
Proof.
  revert c. induction messages as [|m messages IH]; intros c; cbn [fold_left].
  - exists (sockets c). now rewrite withSockets_id.
  - destruct (wsSend_shape ws m c) as [ss1 ->].
    destruct (IH (withSockets (fun _ => ss1) c)) as [ss ->].
    now exists ss.
Qed.

Lemma map_sent_insert (ss : list WebSocket) (ws : nat) (s s' : WebSocket) :
  ss !! ws = Some s -> sent s' = sent s ->
  map sent (<[ws := s']> ss) = map sent ss.
Proof.
  revert ws. induction ss as [|x ss IH]; intros [|ws]; cbn; try discriminate.
  - intros [= ->] ->. reflexivity.
  - intros Hlook Hsent. f_equal. now apply IH.
Qed.

Lemma wsClose_shape (ws : nat) (c : State) :
  exists ss, wsClose ws c = withSockets (fun _ => ss) c
    /\ map sent ss = map sent (sockets c).
Proof.
  unfold wsClose. destruct (sockets c !! ws) as [s|] eqn:Hs.
  - eexists. split; [reflexivity|]. now apply (map_sent_insert _ _ s).
  - exists (sockets c). now rewrite withSockets_id.
Qed.

(** The notifier touches the queue and the sockets only; on a closed
    connection the queue stays closed and no frame is sent. *)
Lemma notifier_shape (c : State) :
  exists o ss,
    newOutgoingMessageNotifier c = withOutgoing o (withSockets (fun _ => ss) c)
    /\ (outgoing c = None -> o = None /\ map sent ss = map sent (sockets c))
    /\ (outgoing c <> None -> o <> None).
Proof.
  assert (Hid : exists o ss,
             c = withOutgoing o (withSockets (fun _ => ss) c)
             /\ (outgoing c = None -> o = None /\ map sent ss = map sent (sockets c))
             /\ (outgoing c <> None -> o <> None)).
  { exists (outgoing c), (sockets c). split; [now destruct c|]. tauto. }
  unfold newOutgoingMessageNotifier.
  destruct (notifier c) as [ws|]; [|exact Hid].
  destruct (sockets c !! ws) as [[[] ?]|]; try exact Hid.
  unfold sendAllMessages. destruct (outgoing c) as [messages|] eqn:Hout.
  - destruct (wsSend_all_shape ws messages c) as [ss ->].
    exists (Some []), ss. split; [reflexivity|]. split; [discriminate|discriminate].
  - destruct (wsClose_shape ws c) as (ss & -> & Hsent).
    exists None, ss. split; [now destruct c; cbn in *; subst|]. tauto.
Qed.

Lemma listen_registers (key method : string) (opts : ListenOptions.t) (c : State) :
  listeners (snd (listen key method opts c)) !! key = Some (Subscription opts)
  /\ log (snd (listen key method opts c)) = log c.
Proof.
  unfold listen, bind, modify, sendMessage.
  cbn [withListeners outgoing].
  destruct (outgoing c); cbn [snd].
  - match goal with |- context [newOutgoingMessageNotifier ?x] =>
      destruct (notifier_shape x) as (o & ss & -> & _) end.
    cbn [listeners log withOutgoing withSockets withListeners].
    split; [apply lookup_insert_eq|reflexivity].
  - cbn [listeners log]. split; [apply lookup_insert_eq|reflexivity].
Qed.

(** *** A pending call *)

Lemma call_is_pending (key method : string) (params : value) (c : State) :
  outgoing c <> None -> pendingCall key (call key method params c).
Proof.
  intros Hopen. unfold call, sendMessage.
  cbn [withListeners withPromises outgoing].
  destruct (outgoing c); [|congruence].
  match goal with |- context [newOutgoingMessageNotifier ?x] =>
    destruct (notifier_shape x) as (o & ss & -> & _) end.
  split; cbn [listeners promises withOutgoing withSockets withListeners withPromises];
    apply lookup_insert_eq.
Qed.

Lemma call_removed_on_response (key frame : string) (data : value) (c : State) :
  carries key frame data ->
  listeners c !! key = Some (OneShot key) ->
  listeners (onmessage options (TextData frame) c) !! key = None.
Proof.
  intros Hc Hl. destruct (onmessage_carries key frame data c Hc) as (error & Herr & ->).
  rewrite Hl. unfold fire. rewrite Herr.
  assert (Hdel : listeners (withListeners (delete key) c) !! key = None)
    by (cbn [listeners withListeners]; apply lookup_delete_eq).
  destruct (defined (nullish data VNull)); [|exact Hdel].
  unfold settle. repeat case_match; exact Hdel.
Qed.

(** A frame that decodes to one response object reaches [deliver]. *)
Lemma onmessage_one (frame : string) (fields : list (string * value))
    (idv : value) (c : State) :
  JSON_parse frame = Some (VObj fields) ->
  Frames.responseObject idv fields ->
  onmessage options (TextData frame) c
  = match deliver options {| id := idv; result := get "result" fields;
                             error := get "error" fields |} c with
    | (Ok _, c') => c'
    | (Throw e, c') => effect (Uncaught e) c'
    end.
Proof.
  intros Hparse (Hown & Hid & Hidv & Hres).
  unfold onmessage, parseResponse. rewrite Hparse.
  cbn [Utils.makeArray checkResponses checkResponse].
  rewrite Hown, Hid, Hres, Hidv. cbn [andb forEach]. change (warnings 0 c) with c.
  unfold bind.
  destruct (deliver options _ c) as [[[]|e] c']; reflexivity.
Qed.

Lemma sendAllMessages_shape (ws : nat) (c : State) :
  exists o ss, sendAllMessages ws c = withOutgoing o (withSockets (fun _ => ss) c).
Proof.
  unfold sendAllMessages. destruct (outgoing c) as [messages|] eqn:Hout.
  - destruct (wsSend_all_shape ws messages c) as [ss ->]. now exists (Some []), ss.
  - destruct (wsClose_shape ws c) as (ss & -> & _). exists None, ss.
    destruct c; cbn in *; now subst.
Qed.

(** *** A subscription through every response and every action *)

Lemma addEffects_log (es : list Effect) (c : State) :
  log (fold_left (fun c e => effect e c) es c) = log c ++ es.
Proof.
  revert c. induction es as [|e es IH]; intros c; cbn [fold_left].
  - now rewrite app_nil_r.
  - rewrite IH. cbn [effect log]. now rewrite <- app_assoc.
Qed.

Lemma addEffects_listeners (es : list Effect) (c : State) :
  listeners (fold_left (fun c e => effect e c) es c) = listeners c.
Proof.
  revert c. induction es as [|e es IH]; intros c; [reflexivity|].
  cbn [fold_left]. now rewrite IH.
Qed.

Lemma fire_subscription_callbacks (opts : ListenOptions.t)
    (fields : list (string * value)) (c : State) :
  fire (Subscription opts) (get "error" fields)
    (nullish (get "result" fields) VNull) c
  = fold_left (fun c e => effect e c) (Subscriptions.callbacks opts fields) c.
Proof.
  unfold fire, Subscriptions.callbacks. rewrite truthy_nullish.
  destruct (ListenOptions.errorHandler opts), (truthy (get "error" fields));
    destruct (ListenOptions.listener opts);
    destruct (truthy (get "result" fields)) eqn:Hr; cbn [andb app fold_left];
    rewrite ?(nullish_truthy _ Hr); reflexivity.
Qed.

Lemma checkResponses_objects (idv : value) (responses : list (list (string * value))) :
  Forall (Frames.responseObject idv) responses ->
  checkResponses (map VObj responses)
  = Some (map (fun fields => {| id := idv; result := get "result" fields;
                                error := get "error" fields |}) responses, O).
Proof.
  induction 1 as [|fields responses (Hown & Hid & Hidv & Hres) _ IH]; [reflexivity|].
  cbn [map checkResponses checkResponse].
  rewrite Hown, Hid, Hres, Hidv, IH. reflexivity.
Qed.

Lemma forEach_deliver_subscription (key : string) (opts : ListenOptions.t)
    (responses : list (list (string * value))) (c : State) :
  listeners c !! key = Some (Subscription opts) ->
  forEach (deliver options)
    (map (fun fields => {| id := VStr key; result := get "result" fields;
                           error := get "error" fields |}) responses) c
  = (Ok tt,
     fold_left (fun c e => effect e c)
       (concat (map (Subscriptions.callbacks opts) responses)) c).
Proof.
  revert c. induction responses as [|fields responses IH]; intros c Hsub;
    [reflexivity|].
  cbn [map forEach concat]. unfold bind, deliver at 1. cbn [id error result].
  rewrite Hsub, fire_subscription_callbacks, fold_left_app.
  apply IH. now rewrite addEffects_listeners.
Qed.

Lemma onmessage_subscription (key frame : string) (opts : ListenOptions.t)
    (responses : list (list (string * value))) (c : State) :
  Subscriptions.carriesAll key frame responses ->
  listeners c !! key = Some (Subscription opts) ->
  onmessage options (TextData frame) c
  = fold_left (fun c e => effect e c)
      (concat (map (Subscriptions.callbacks opts) responses)) c.
Proof.
  intros (decoded & Hparse & Hshape & Hall) Hsub.
  assert (Harr : Utils.makeArray decoded = map VObj responses).
  { destruct Hshape as [->|(fields & -> & ->)]; reflexivity. }
  unfold onmessage, parseResponse. rewrite Hparse, Harr.
  rewrite (checkResponses_objects (VStr key) responses Hall).
  change (warnings 0 c) with c.
  now rewrite (forEach_deliver_subscription key opts responses c Hsub).
Qed.

Lemma subscription_frames (key : string) (opts : ListenOptions.t)
    (frames : list string) (responses : list (list (list (string * value))))
    (c : State) :
  Forall2 (Subscriptions.carriesAll key) frames responses ->
  listeners c !! key = Some (Subscription opts) ->
  fold_left (fun c frame => onmessage options (TextData frame) c) frames c
  = fold_left (fun c e => effect e c)
      (concat (map (Subscriptions.callbacks opts) (concat responses))) c.
Proof.
  intros Hall. revert c.
  induction Hall as [|frame rs frames responses Hc _ IH]; intros c Hsub;
    [reflexivity|].
  cbn [fold_left concat].
  rewrite (onmessage_subscription key frame opts rs c Hc Hsub).
  rewrite map_app, concat_app, fold_left_app.
  apply IH. now rewrite addEffects_listeners.
Qed.

Lemma sendMessage_listeners (method : string) (params : value) (i : option string)
    (c : State) :
  listeners (snd (sendMessage method params i c)) = listeners c.
Proof.
  unfold sendMessage. destruct (outgoing c); [|reflexivity]. cbn [snd].
  match goal with |- context [newOutgoingMessageNotifier ?x] =>
    destruct (notifier_shape x) as (o & ss & -> & _) end.
  reflexivity.
Qed.

Lemma call_listeners (key method : string) (params : value) (c : State) :
  listeners (call key method params c) = <[key := OneShot key]> (listeners c).
Proof.
  unfold call.
  match goal with |- context [sendMessage ?m ?p ?i ?x] =>
    pose proof (sendMessage_listeners m p i x) as Hs;
    destruct (sendMessage m p i x) as [[[]|e] c1] end; cbn [snd] in Hs.
  - exact Hs.
  - unfold settle. repeat case_match; exact Hs.
Qed.

Lemma listen_listeners (key method : string) (opts : ListenOptions.t) (c : State) :
  listeners (snd (listen key method opts c))
  = <[key := Subscription opts]> (listeners c).
Proof.
  unfold listen, bind, modify.
  match goal with |- context [sendMessage ?m ?p ?i ?x] =>
    pose proof (sendMessage_listeners m p i x) as Hs;
    destruct (sendMessage m p i x) as [[[]|e] c1] end; exact Hs.
Qed.

Lemma fire_listeners (l : Listener) (error data : value) (c : State) :
  listeners (fire l error data c)
  = match l with
    | OneShot i => delete i (listeners c)
    | Subscription _ => listeners c
    end.
Proof. destruct l; unfold fire, settle; repeat case_match; reflexivity. Qed.

Section Lifetime.

Variable key : string.
Variable opts : ListenOptions.t.

(** The subscription [key] is registered and every closure of [call] is
    held under its own id. *)
Let kept (c : State) : Prop :=
  Subscriptions.wellKeyed c /\ listeners c !! key = Some (Subscription opts).

Lemma kept_same (c c' : State) :
  listeners c' = listeners c -> kept c -> kept c'.
Proof. unfold kept, Subscriptions.wellKeyed. intros ->. auto. Qed.

Lemma kept_insert (i : string) (l : Listener) (c c' : State) :
  listeners c' = <[i := l]> (listeners c) ->
  i <> key -> (forall j, l = OneShot j -> i = j) ->
  kept c -> kept c'.
Proof.
  unfold kept, Subscriptions.wellKeyed. intros -> Hne Hl [Hw Hsub]. split.
  - intros k j. rewrite lookup_insert. case_decide as Hk.
    + intros [= ->]. subst. now apply Hl.
    + apply Hw.
  - now rewrite lookup_insert_ne.
Qed.

Lemma deliver_kept (res : Response) (c : State) :
  kept c -> kept (snd (deliver options res c)).
Proof.
  intros Hkept. unfold deliver. destruct (id res) as [| | | |k| |]; try exact Hkept.
  - repeat case_match; exact Hkept.
  - destruct (listeners c !! k) as [l|] eqn:Hl; [|exact Hkept]. cbn [snd].
    destruct Hkept as [Hw Hsub]. unfold kept, Subscriptions.wellKeyed.
    rewrite fire_listeners. destruct l as [i|o]; [|auto].
    assert (k = i) by now apply Hw. subst i.
    assert (k <> key) by (intros ->; congruence).
    split.
    + intros k' j Hk'. apply lookup_delete_Some in Hk' as [_ Hk']. now apply Hw.
    + now rewrite lookup_delete_ne.
Qed.

Lemma forEach_deliver_kept (res : list Response) (c : State) :
  kept c -> kept (snd (forEach (deliver options) res c)).
Proof.
  revert c. induction res as [|r res IH]; intros c Hkept; [exact Hkept|].
  cbn [forEach]. unfold bind. pose proof (deliver_kept r c Hkept) as Hd.
  destruct (deliver options r c) as [[[]|e] c1]; cbn [snd] in *; [|exact Hd].
  now apply IH.
Qed.

Lemma onmessage_kept (data : MessageData) (c : State) :
  kept c -> kept (onmessage options data c).
Proof.
  intros Hkept.
  assert (Hw : forall n, kept (warnings n c)).
  { intros n. apply (kept_same c); [|exact Hkept].
    unfold warnings. induction n as [|n IH]; [reflexivity|]. simpl Nat.iter. exact IH. }
  unfold onmessage. destruct (parseResponse data) as [[res|] n]; [|apply Hw].
  pose proof (forEach_deliver_kept res (warnings n c) (Hw n)) as Hf.
  destruct (forEach (deliver options) res (warnings n c)) as [[[]|e] c1];
    cbn [snd] in Hf; [exact Hf|].
  now apply (kept_same c1).
Qed.

Lemma step_kept (a : Action) (c : State) :
  Subscriptions.reuses key a = false -> kept c -> kept (step options a c).
Proof.
  intros Hfresh Hkept.
  destruct a as [i method params|method params|i method o| |ws|ws|ws data|];
    cbn [step Subscriptions.reuses] in *.
  - apply (kept_insert i (OneShot i) c); [apply call_listeners| |congruence|exact Hkept].
    intros ->. now rewrite String.eqb_refl in Hfresh.
  - apply (kept_same c); [apply sendMessage_listeners|exact Hkept].
  - apply (kept_insert i (Subscription o) c);
      [apply listen_listeners| |discriminate|exact Hkept].
    intros ->. now rewrite String.eqb_refl in Hfresh.
  - apply (kept_same c); [|exact Hkept]. unfold close.
    destruct (notifier_shape (withOutgoing None c)) as (o & ss & -> & _). reflexivity.
  - apply (kept_same c); [|exact Hkept]. unfold onopen.
    destruct (sendAllMessages_shape ws (setReadyState ws OPEN c)) as (o & ss & ->).
    unfold setReadyState. destruct (ws =? 0)%nat, (sockets c !! ws); reflexivity.
  - apply (kept_same c); [|exact Hkept]. unfold onerror, setReadyState.
    destruct (sockets c !! ws); repeat case_match; reflexivity.
  - now apply onmessage_kept.
  - apply (kept_same c); [|exact Hkept]. unfold ontimeout.
    repeat case_match; reflexivity.
Qed.

Lemma run_kept (actions : list Action) (c : State) :
  forallb (fun a => negb (Subscriptions.reuses key a)) actions = true ->
  Subscriptions.wellKeyed c -> listeners c !! key = Some (Subscription opts) ->
  listeners (run options actions c) !! key = Some (Subscription opts).
Proof.
  intros Hfresh Hw Hsub. assert (Hkept : kept c) by (split; assumption). clear Hw Hsub.
  unfold run. revert c Hkept.
  induction actions as [|a actions IH]; intros c Hkept; [apply Hkept|].
  cbn [forallb] in Hfresh. apply andb_prop in Hfresh as [Ha Hrest].
  cbn [fold_left]. apply IH; [exact Hrest|].
  apply step_kept; [|exact Hkept]. now destruct (Subscriptions.reuses key a).
Qed.

End Lifetime.

Lemma listen_wellKeyed (key method : string) (opts : ListenOptions.t) (c : State) :
  Subscriptions.wellKeyed c ->
  Subscriptions.wellKeyed (snd (listen key method opts c)).
Proof.
  unfold Subscriptions.wellKeyed. intros Hw k i.
  rewrite listen_listeners, lookup_insert. case_decide; [discriminate|apply Hw].
Qed.

Lemma call_entry_removed (key method frame : string) (params : value)
    (fields : list (string * value)) (c : State) :
  JSON_parse frame = Some (VObj fields) ->
  Frames.responseObject (VStr key) fields ->
  listeners (onmessage options (TextData frame) (call key method params c)) !! key
  = None.
Proof.
  intros Hparse Hobj.
  rewrite (onmessage_one frame fields (VStr key) _ Hparse Hobj).
  unfold deliver. cbn [id error result].
  rewrite call_listeners, lookup_insert_eq.
  rewrite fire_listeners. apply lookup_delete_eq.
Qed.

End ClientFacts.

(** C2. The callback [listen] registers is persistent. Through any run of
    frames that carry responses to its request, with a result or with an
    error, one bare response or a batch of them, it stays in [listeners]
    and is called once per response, in the order of arrival:
    [options.errorHandler], when given, gets each truthy error and
    [options.listener], when given, each truthy result. So the results 1,
    2, 3 of an emitter make three calls of [options.listener], in that
    order. It also stays through every later call of the application and
    every event of the transport, as long as no listener is registered
    again under its id. By contrast the entry [call] registers is gone
    after the first response to it, a result or an error. *)
Theorem listen_subscription_persists `{RT : Runtime} (options : ConnectOptions.t)
    (key method : string) (opts : ListenOptions.t)
    (frames : list string) (responses : list (list (list (string * value))))
    (c : Client.State) :
  Forall2 (Subscriptions.carriesAll key) frames responses ->
  let c1 := snd (Client.listen key method opts c) in
  let c2 := fold_left (fun c frame => Client.onmessage options (Client.TextData frame) c)
              frames c1 in
  Client.listeners c2 !! key = Some (Client.Subscription opts)
  /\ Client.log c2
     = Client.log c ++ concat (map (Subscriptions.callbacks opts) (concat responses))
  /\ (ListenOptions.listener opts = true ->
      Forall (fun fields => truthy (get "error" fields) = false
                            /\ truthy (get "result" fields) = true)
        (concat responses) ->
      Client.log c2
      = Client.log c
        ++ map (fun fields => Client.ListenerCalled opts (get "result" fields))
             (concat responses))
  /\ (forall actions,
        Subscriptions.wellKeyed c ->
        forallb (fun a => negb (Subscriptions.reuses key a)) actions = true ->
        Client.listeners (Client.run options actions c2) !! key
        = Some (Client.Subscription opts))
  /\ (forall frame fields params c0,
        JSON_parse frame = Some (VObj fields) ->
        Frames.responseObject (VStr key) fields ->
        Client.listeners
          (Client.onmessage options (Client.TextData frame)
             (Client.call key method params c0)) !! key = None).
Proof.
  intros Hall c1 c2.
  destruct (listen_registers key method opts c) as [Hreg Hlog]. fold c1 in Hreg, Hlog.
  assert (Hrun := subscription_frames options key opts frames responses c1 Hall Hreg).
  fold c2 in Hrun.
  assert (Hlog2 : Client.log c2
     = Client.log c ++ concat (map (Subscriptions.callbacks opts) (concat responses)))
    by (rewrite Hrun, addEffects_log, Hlog; reflexivity).
  assert (Hkeep : Client.listeners c2 = Client.listeners c1)
    by (rewrite Hrun; apply addEffects_listeners).
  split; [now rewrite Hkeep|]. split; [exact Hlog2|]. split; [|split].
  - intros Hl Hsuccess. rewrite Hlog2. f_equal.
    revert Hsuccess. generalize (concat responses) as rs. intros rs Hsuccess.
    induction Hsuccess as [|fields rest [He Hr] _ IH]; [reflexivity|].
    cbn [map concat]. rewrite IH. unfold Subscriptions.callbacks.
    now rewrite He, Hr, Hl, andb_false_r.
  - intros actions Hw Hfresh.
    apply (run_kept options key opts actions c2 Hfresh).
    + unfold Subscriptions.wellKeyed. rewrite Hkeep.
      now apply listen_wellKeyed.
    + now rewrite Hkeep.
  - intros frame fields params c0 Hparse Hobj.
    exact (call_entry_removed options key method frame params fields c0 Hparse Hobj).
Qed.

Lemma listen_subscription_persists_witness :
  let c2 :=
    fold_left
      (fun c frame =>
         Client.onmessage (RT := Demo3.host) Demo.noOptions (Client.TextData frame) c)
      (map Demo.stringify
         [Demo.emitted 1; Demo3.emitterNotFound;
          VArr [Demo.emitted 2; Demo.emitted 3]])
      (snd (Client.listen (RT := Demo3.host) "sub" "hello" Demo.listenOptions
              Demo.connectedClient)) in
  Client.listeners c2 !! "sub" = Some (Client.Subscription Demo.listenOptions)
  /\ Client.log c2
     = map (Client.ListenerCalled Demo.listenOptions) [VNum 1; VNum 2; VNum 3]
  /\ Client.listeners
       (Client.run (RT := Demo3.host) Demo.noOptions
          [Client.Call "call1" "hello" VNull; Client.Error 0; Client.Timeout;
           Client.CloseConnection] c2) !! "sub"
     = Some (Client.Subscription Demo.listenOptions).
Proof.
  assert (Hall : Forall2 (Subscriptions.carriesAll (RT := Demo3.host) "sub")
                   (map Demo.stringify
                      [Demo.emitted 1; Demo3.emitterNotFound;
                       VArr [Demo.emitted 2; Demo.emitted 3]])
                   [[[("result", VNum 1); ("id", VStr "sub"); ("jsonrpc", VStr "2.0")]];
                    [[("error", VObj [("code", VNum (-32601));
                                      ("message", VStr "Emitter not found")]);
                      ("id", VStr "sub"); ("jsonrpc", VStr "2.0")]];
                    [[("result", VNum 2); ("id", VStr "sub"); ("jsonrpc", VStr "2.0")];
                     [("result", VNum 3); ("id", VStr "sub"); ("jsonrpc", VStr "2.0")]]]).
  { repeat constructor.
    - eexists; split; [reflexivity|]. split; [right; eexists; split; reflexivity|].
      repeat constructor; reflexivity.
    - eexists; split; [reflexivity|]. split; [right; eexists; split; reflexivity|].
      repeat constructor; reflexivity.
    - eexists; split; [reflexivity|]. split; [left; reflexivity|].
      repeat constructor; reflexivity. }
  pose proof (listen_subscription_persists (RT := Demo3.host) Demo.noOptions
                "sub" "hello" Demo.listenOptions _ _ Demo.connectedClient Hall) as H.
  cbv zeta in H. destruct H as (Hkeep & Hlog & _ & Hlife & _).
  split; [exact Hkeep|]. split; [exact Hlog|].
  apply Hlife; [|reflexivity].
  intros k i Hk. vm_compute in Hk. discriminate Hk.
Defined.

(** C4. When the response to a pending call arrives with a [result] that
    is defined, the promise of the call is fulfilled with that result,
    whatever its truth value: the empty string, [0] and [false]
    included. *)
Theorem call_resolves_with_defined_result `{RT : Runtime}
    (options : ConnectOptions.t) (key frame : string) (data : value)
    (c : Client.State) :
  Client.pendingCall key c ->
  Client.carries key frame data ->
  defined data = true ->
  let c' := Client.onmessage options (Client.TextData frame) c in
  Client.promises c' !! key = Some (Client.Fulfilled data)
  /\ Client.listeners c' !! key = None.
Proof.
  intros [Hl Hp] Hc Hdef c'. split.
  - subst c'. destruct (onmessage_carries options key frame data c Hc)
      as (error & Herr & ->).
    rewrite Hl. unfold Client.fire. rewrite Herr, (nullish_defined data Hdef), Hdef.
    unfold Client.settle. cbn [Client.promises Client.withListeners].
    rewrite Hp. cbn [Client.promises Client.withPromises Client.withListeners].
    apply lookup_insert_eq.
  - now apply (call_removed_on_response options key frame data c Hc).
Qed.

Lemma call_resolves_with_defined_result_witness :
  let c := Client.call (RT := Demo.clientHost) "call1" "count" VUndefined
             Demo.connectedClient in
  Client.promises
    (Client.onmessage (RT := Demo.clientHost) Demo.noOptions
       (Client.TextData (Demo.stringify Demo.answeredZero)) c) !! "call1"
  = Some (Client.Fulfilled (VNum 0)).
Proof.
  intros c.
  refine (proj1 (call_resolves_with_defined_result (RT := Demo.clientHost)
                   Demo.noOptions "call1" (Demo.stringify Demo.answeredZero)
                   (VNum 0) c _ _ eq_refl)).
  - split; reflexivity.
  - eexists; split; [reflexivity|]. eexists; repeat split; reflexivity.
Defined.

Section ClosedFacts.

Import Client.
Context `{RT : Runtime}.
Variable options : ConnectOptions.t.

Lemma fire_link (l : Listener) (error data : value) (c : State) :
  outgoing (fire l error data c) = outgoing c
  /\ sockets (fire l error data c) = sockets c.
Proof.
  destruct l; unfold fire, settle; repeat case_match; split; reflexivity.
Qed.

Lemma deliver_link (res : Response) (c : State) :
  outgoing (snd (deliver options res c)) = outgoing c
  /\ sockets (snd (deliver options res c)) = sockets c.
Proof.
  unfold deliver. destruct (id res); try (split; reflexivity).
  - repeat case_match; split; reflexivity.
  - destruct (listeners c !! s); [apply fire_link|split; reflexivity].
Qed.

Lemma forEach_deliver_link (res : list Response) (c : State) :
  outgoing (snd (forEach (deliver options) res c)) = outgoing c
  /\ sockets (snd (forEach (deliver options) res c)) = sockets c.
Proof.
  revert c. induction res as [|r res IH]; intros c; [split; reflexivity|].
  cbn [forEach]. unfold bind.
  destruct (deliver_link r c) as [Ho Hs].
  destruct (deliver options r c) as [[[]|e] c1]; cbn [snd] in *.
  - destruct (IH c1) as [Ho' Hs']. split; congruence.
  - split; assumption.
Qed.

Lemma warnings_link (n : nat) (c : State) :
  outgoing (warnings n c) = outgoing c /\ sockets (warnings n c) = sockets c.
Proof.
  unfold warnings. induction n as [|n [IHo IHs]]; [split; reflexivity|].
  cbn [Nat.iter]. split; [exact IHo|exact IHs].
Qed.

Lemma onmessage_link (data : MessageData) (c : State) :
  outgoing (onmessage options data c) = outgoing c
  /\ sockets (onmessage options data c) = sockets c.
Proof.
  unfold onmessage. destruct (parseResponse data) as [[res|] n];
    [|apply warnings_link].
  destruct (warnings_link n c) as [Ho Hs].
  destruct (forEach_deliver_link res (warnings n c)) as [Ho' Hs'].
  destruct (forEach (deliver options) res (warnings n c)) as [[[]|e] c1];
    cbn [snd] in *; split; cbn [effect outgoing sockets]; congruence.
Qed.

Lemma setReadyState_sent (ws : nat) (r : ReadyState) (c : State) :
  outgoing (setReadyState ws r c) = outgoing c
  /\ map sent (sockets (setReadyState ws r c)) = map sent (sockets c).
Proof.
  unfold setReadyState. destruct (sockets c !! ws) as [s|] eqn:Hs;
    [|split; reflexivity].
  split; [reflexivity|]. cbn [sockets withSockets]. now apply (map_sent_insert _ _ s).
Qed.

Lemma call_closed (key method : string) (params : value) (c : State) :
  outgoing c = None ->
  promises (call key method params c) !! key = Some (Rejected closedError)
  /\ outgoing (call key method params c) = None
  /\ sockets (call key method params c) = sockets c.
Proof.
  intros Hclosed. unfold call, sendMessage.
  cbn [outgoing withListeners withPromises]. rewrite Hclosed.
  unfold settle. cbn [promises withListeners withPromises].
  rewrite lookup_insert_eq.
  cbn [promises outgoing sockets withListeners withPromises].
  split; [apply lookup_insert_eq|split; [exact Hclosed|reflexivity]].
Qed.

Lemma notify_closed (method : string) (params : value) (c : State) :
  outgoing c = None -> notify method params c = (Throw closedError, c).
Proof. intros Hclosed. unfold notify, sendMessage. now rewrite Hclosed. Qed.

Lemma ontimeout_closed (c : State) :
  outgoing c = None ->
  outgoing (ontimeout c) = None /\ sockets (ontimeout c) = sockets c
  /\ notifier (ontimeout c) = notifier c.
Proof.
  intros Hclosed. unfold ontimeout. destruct (timers c); [auto|].
  cbn [outgoing withTimers]. rewrite Hclosed. auto.
Qed.

Lemma step_closed (a : Action) (c0 c : State) :
  closedLike c0 c -> closedLike c0 (step options a c).
Proof.
  unfold closedLike. intros [Hclosed Hsent].
  destruct a as [key method params|method params|key method opts| |ws|ws|ws data|];
    cbn [step].
  - destruct (call_closed key method params c Hclosed) as (_ & Ho & Hs).
    now rewrite Ho, Hs.
  - now rewrite (notify_closed method params c Hclosed).
  - unfold listen, bind, modify, sendMessage. cbn [outgoing withListeners].
    rewrite Hclosed. cbn [snd outgoing sockets withListeners]. auto.
  - unfold close.
    destruct (notifier_shape (withOutgoing None c)) as (o & ss & -> & Hnone & _).
    destruct (Hnone eq_refl) as [-> Hss].
    cbn [outgoing sockets withOutgoing withSockets] in *. split; congruence.
  - destruct (setReadyState_sent ws OPEN c) as [Ho Hs].
    unfold onopen, sendAllMessages. rewrite Ho, Hclosed.
    destruct (wsClose_shape ws (setReadyState ws OPEN c)) as (ss & -> & Hss).
    assert (outgoing (withSockets (fun _ => ss) (setReadyState ws OPEN c)) = None
            /\ map sent (sockets (withSockets (fun _ => ss) (setReadyState ws OPEN c)))
               = map sent (sockets c0)) as [? ?].
    { cbn [outgoing sockets withSockets]. split; congruence. }
    destruct (ws =? 0)%nat; cbn [outgoing sockets withConnected]; auto.
  - destruct (setReadyState_sent ws CLOSED c) as [Ho Hs].
    unfold onerror. repeat case_match;
      cbn [outgoing sockets withTimers withRetryCount effect]; split; congruence.
  - destruct (onmessage_link data c) as [Ho Hs]. rewrite Ho, Hs. auto.
  - destruct (ontimeout_closed c Hclosed) as (Ho & Hs & _). rewrite Ho, Hs. auto.
Qed.

Lemma run_closed (actions : list Action) (c0 c : State) :
  closedLike c0 c -> closedLike c0 (run options actions c).
Proof.
  unfold run. revert c. induction actions as [|a actions IH]; intros c Hc;
    [exact Hc|].
  cbn [fold_left]. apply IH. now apply step_closed.
Qed.

Lemma close_closed (c : State) : closedLike (close c) (close c).
Proof.
  unfold closedLike. split; [|reflexivity]. unfold close.
  destruct (notifier_shape (withOutgoing None c)) as (o & ss & -> & Hnone & _).
  now destruct (Hnone eq_refl) as [-> _].
Qed.

End ClosedFacts.

(** C5. Once [close()] has been called, whatever happens next, the queue
    stays closed and no socket sends a frame any more; every [notify]
    raises the error "Cannot send message because the socket has been
    manually closed" and leaves the state as it is; the promise of every
    [call] is rejected with that error at once, nothing being queued or
    sent; and a retry timer that fires opens no connection. *)
Theorem closed_connection_fails_fast `{RT : Runtime} (options : ConnectOptions.t)
    (actions : list Client.Action) (c : Client.State) :
  let c' := Client.run options actions (Client.close c) in
  Client.outgoing c' = None
  /\ map Client.sent (Client.sockets c') = map Client.sent (Client.sockets (Client.close c))
  /\ (forall method params,
        Client.notify method params c' = (Throw Client.closedError, c'))
  /\ (forall key method params,
        let c'' := Client.call key method params c' in
        Client.promises c'' !! key = Some (Client.Rejected Client.closedError)
        /\ Client.outgoing c'' = None
        /\ Client.sockets c'' = Client.sockets c')
  /\ (Client.sockets (Client.step options Client.Timeout c') = Client.sockets c'
      /\ Client.notifier (Client.step options Client.Timeout c') = Client.notifier c').
Proof.
  intros c'.
  destruct (run_closed options actions _ _ (close_closed c)) as [Hclosed Hsent].
  fold c' in Hclosed, Hsent.
  split; [exact Hclosed|]. split; [exact Hsent|]. split; [|split].
  - intros method params. now apply notify_closed.
  - intros key method params. now apply call_closed.
  - destruct (ontimeout_closed c' Hclosed) as (_ & Hs & Hn). now split.
Qed.

Section RetryFacts.

Import Client.
Context `{RT : Runtime}.
Variable options : ConnectOptions.t.
Hypothesis zero : ConnectOptions.retryCount options = Some 0.

Lemma retryLimit_zero : retryLimit options = Infinity.
Proof. unfold retryLimit. now rewrite zero. Qed.

Lemma onerror_zero (c : State) :
  onerror options c
  = withTimers (fun t => t ++ [retryDelay options])
      (withRetryCount (retryCount c + 1) c).
Proof. unfold onerror. now rewrite retryLimit_zero. Qed.

Lemma failAndRetry_zero (c : State) :
  outgoing c <> None ->
  let c' := failAndRetry options c in
  outgoing c' = outgoing c
  /\ length (sockets c') = S (length (sockets c))
  /\ log c' = log c
  /\ retryCount c' = retryCount c + 1.
Proof.
  intros Hopen c'. subst c'. unfold failAndRetry. cbn [step].
  set (c1 := setReadyState (length (sockets c) - 1) CLOSED c).
  assert (H1 : outgoing c1 = outgoing c /\ length (sockets c1) = length (sockets c)
               /\ log c1 = log c /\ retryCount c1 = retryCount c).
  { subst c1. unfold setReadyState.
    destruct (sockets c !! (length (sockets c) - 1)%nat); [|tauto].
    cbn [outgoing sockets log retryCount withSockets].
    now rewrite length_insert. }
  destruct H1 as (Ho & Hs & Hl & Hr).
  rewrite onerror_zero. unfold ontimeout. cbn [timers withTimers withRetryCount].
  destruct (timers c1 ++ [retryDelay options]) as [|t rest] eqn:Ht;
    [now destruct (timers c1)|].
  cbn [outgoing withTimers withRetryCount]. rewrite Ho.
  destruct (outgoing c); [|congruence].
  unfold tryToConnect.
  cbn [outgoing sockets log retryCount withNotifier withSockets withTimers
       withRetryCount].
  rewrite length_app, Hs, Hl, Hr. cbn [length]. repeat split; first [assumption | lia].
Qed.

Lemma failAndRetry_rounds (n : nat) (c : State) :
  outgoing c <> None ->
  let c' := Nat.iter n (failAndRetry options) c in
  outgoing c' = outgoing c
  /\ length (sockets c') = (length (sockets c) + n)%nat
  /\ log c' = log c
  /\ retryCount c' = retryCount c + Z.of_nat n.
Proof.
  intros Hopen. induction n as [|n IH]; cbn zeta in *.
  - simpl Nat.iter. repeat split; first [reflexivity | lia].
  - simpl Nat.iter. destruct IH as (Ho & Hs & Hl & Hr).
    destruct (failAndRetry_zero (Nat.iter n (failAndRetry options) c))
      as (Ho' & Hs' & Hl' & Hr'); [congruence|].
    repeat split; try congruence; lia.
Qed.

End RetryFacts.

(** C10. With [retryCount: 0] in the options, the limit the client
    compares its counter with is [Infinity], as when the option is not
    given: [ws.onerror] never takes the branch of the exhausted retries (it
    reports nothing and raises nothing), it counts the error and sets the
    timer of the next attempt. So, for every [n], [n] errors each followed
    by its timer open [n] more sockets, as long as the connection has not
    been closed. *)
Theorem retry_count_zero_is_unbounded `{RT : Runtime} (options : ConnectOptions.t) :
  ConnectOptions.retryCount options = Some 0 ->
  Client.retryLimit options = Client.Infinity
  /\ (forall c,
        Client.onerror options c
        = Client.withTimers (fun t => t ++ [Client.retryDelay options])
            (Client.withRetryCount (Client.retryCount c + 1) c))
  /\ (forall c,
        Client.onerror options c
        = Client.onerror
            {| ConnectOptions.onGeneralError := ConnectOptions.onGeneralError options;
               ConnectOptions.retryCount := None;
               ConnectOptions.retryInterval := ConnectOptions.retryInterval options |}
            c)
  /\ (forall n c,
        Client.outgoing c <> None ->
        let c' := Nat.iter n (Client.failAndRetry options) c in
        length (Client.sockets c') = (length (Client.sockets c) + n)%nat
        /\ Client.log c' = Client.log c
        /\ Client.retryCount c' = Client.retryCount c + Z.of_nat n).
Proof.
  intros Hzero. split; [now apply retryLimit_zero|].
  split; [intros c; now apply onerror_zero|]. split.
  - intros c. rewrite (onerror_zero options Hzero). reflexivity.
  - intros n c Hopen.
    destruct (failAndRetry_rounds options Hzero n c Hopen) as (_ & Hs & Hl & Hr).
    auto.
Qed.

Lemma retry_count_zero_is_unbounded_witness :
  let options := {| ConnectOptions.onGeneralError := false;
                    ConnectOptions.retryCount := Some 0;
                    ConnectOptions.retryInterval := None |} in
  length (Client.sockets
            (Nat.iter 5 (Client.failAndRetry (RT := Demo.clientHost) options)
               Demo.connectedClient)) = 6%nat.
Proof.
  intros options.
  destruct (retry_count_zero_is_unbounded (RT := Demo.clientHost) options eq_refl)
    as (_ & _ & _ & Hrounds).
  exact (proj1 (Hrounds 5%nat Demo.connectedClient ltac:(discriminate))).
Defined.

(** ** The engine at work on the tests of the repository *)

(** A close event leaves the socket of the connection closed and takes the
    client out of [socks]. *)
Lemma close_event_closes `{RT : Runtime} (reg : Server.Registry) (client : string)
    (sock : nat) (ws : Server.WebSocket) (st : Server.State) :
  Server.heap st !! sock = Some ws ->
  let st' := snd (Server.onEvent reg client sock Server.Close st) in
  Server.hasClosed sock st' = true /\ Server.socks st' !! client = None.
Proof.
  intros Hws st'. subst st'. cbn [Server.onEvent]. unfold modify. cbn [snd].
  unfold Server.closeSocket, Server.hasClosed. rewrite Hws.
  cbn [Server.heap Server.socks Server.withSocks Server.withHeap]. split.
  - rewrite list_lookup_insert_eq; [reflexivity|].
    now apply lookup_lt_Some in Hws.
  - apply lookup_delete_eq.
Qed.

(** A notification for a method nobody registered is answered by the empty
    batch. *)
Example empty_batch_is_sent :
  Server.handleRequest (RT := Demo.host) Demo.registry "c"
    (Demo.stringify (Demo.notification "nope" VNull)) Demo.oneClient
  = (Ok tt, Server.written 0 "[]" Demo.oneClient).
Proof. vm_compute. reflexivity. Qed.

(** The call [hello] of [test/client.ts] is answered [goodbye]. *)
Example hello_is_answered :
  Server.handleRequest (RT := Demo.host) Demo.registry "c"
    (Demo.stringify (Demo.request "hello" VNull (VStr "7"))) Demo.oneClient
  = (Ok tt,
     Server.written 0
       (Demo.stringify
          (VObj [("id", VStr "7"); ("result", VStr "goodbye"); ("jsonrpc", VStr "2.0")]))
       Demo.oneClient).
Proof. vm_compute. reflexivity. Qed.

(** The emitter [hello] of [test/server.ts]: after the empty batch that
    answers the subscription, its three later emissions are three frames on
    the socket of the subscriber, in order, each with the id of the
    subscription; the client that listens under that id has its
    listener called with 1, 2 and 3. *)
Example emitter_end_to_end :
  let emits3 st :=
    snd (Server.emitLater (RT := Demo.host) 0 (VNum 3)
      (snd (Server.emitLater (RT := Demo.host) 0 (VNum 2)
        (snd (Server.emitLater (RT := Demo.host) 0 (VNum 1) st))))) in
  let frames := map Demo.stringify [Demo.emitted 1; Demo.emitted 2; Demo.emitted 3] in
  (Server.wire <$> Server.heap (emits3 Demo.subscribed) !! 0%nat)
  = Some ("[]" :: frames)
  /\ Client.log
       (fold_left
          (fun c frame =>
             Client.onmessage (RT := Demo.clientHost) Demo.noOptions
               (Client.TextData frame) c)
          frames
          (snd (Client.listen (RT := Demo.clientHost) "sub" "hello"
                  Demo.listenOptions Demo.connectedClient)))
     = map (Client.ListenerCalled Demo.listenOptions) [VNum 1; VNum 2; VNum 3].
Proof. vm_compute. split; reflexivity. Qed.

(** * Further properties of the code *)

(** ** utils.ts: the encoder on every string *)

Section EncoderMore.

Import Utils.

Lemma hexDigits_acc (fuel : nat) (n : Z) (acc : jsstring) :
  hexDigits fuel n acc = hexDigits fuel n [] ++ acc.
Proof.
  revert n acc. induction fuel as [|fuel IH]; intros n acc; cbn [hexDigits];
    [reflexivity|].
  destruct (n / 16 =? 0); [reflexivity|].
  rewrite (IH (n / 16) (hexDigit (n mod 16) :: acc)).
  rewrite (IH (n / 16) [hexDigit (n mod 16)]).
  now rewrite <- app_assoc.
Qed.

Lemma hexDigits_last (fuel : nat) (n : Z) :
  exists pre, hexDigits (S fuel) n [] = pre ++ [hexDigit (n mod 16)].
Proof.
  cbn [hexDigits]. destruct (n / 16 =? 0).
  - now exists [].
  - rewrite hexDigits_acc. now eexists.
Qed.

Lemma substr_last2_app (pre : jsstring) (a b : Z) :
  substr_last2 (pre ++ [a; b]) = [a; b].
Proof.
  unfold substr_last2. rewrite length_app. cbn [length].
  replace (length pre + 2 - 2)%nat with (length pre) by lia.
  now rewrite drop_app_length.
Qed.

(** [byteHex] writes the two low hexadecimal digits of a number that is not
    negative. *)
Lemma byteHex_low_digits (n : Z) :
  0 <= n -> byteHex n = [hexDigit ((n / 16) mod 16); hexDigit (n mod 16)].
Proof.
  intros Hn. unfold byteHex, toString16.
  destruct (Z.ltb_spec n 0) as [?|_]; [lia|].
  destruct (Z.ltb_spec n 16) as [Hsmall|Hbig].
  - cbn [hexDigits]. replace (n / 16) with 0 by (symmetry; apply Z.div_small; lia).
    reflexivity.
  - assert (Hlog : 4 <= Z.log2 n) by (apply (Z.log2_le_pow2 n 4); simpl; lia).
    destruct (Z.to_nat (Z.log2 n)) as [|fuel] eqn:Hfuel; [lia|].
    change (hexDigits (S (S fuel)) n [])
      with (if n / 16 =? 0 then [hexDigit (n mod 16)]
            else hexDigits (S fuel) (n / 16) [hexDigit (n mod 16)]).
    destruct (Z.eqb_spec (n / 16) 0) as [Hz|_].
    { apply Z.div_small_iff in Hz; lia. }
    rewrite hexDigits_acc.
    destruct (hexDigits_last fuel (n / 16)) as [pre ->].
    rewrite <- app_assoc. cbn [app].
    apply (substr_last2_app (48 :: pre)).
Qed.

Lemma hexDigit_is_hex (d : Z) :
  0 <= d < 16 -> Hex.isHexDigit (hexDigit d) = true.
Proof. unfold Hex.isHexDigit, hexDigit. intros Hd. destruct (Z.ltb_spec d 10); lia. Qed.

Lemma applyKeyToChar_nonneg (key : jsstring) (c : Z) :
  Forall (fun k => 0 <= k) key -> 0 <= c -> 0 <= applyKeyToChar key c.
Proof.
  unfold applyKeyToChar, textToChars. intros Hkey. revert c.
  induction Hkey as [|k key Hk _ IH]; intros c Hc; cbn [fold_left]; [exact Hc|].
  apply IH. apply Z.lxor_nonneg. lia.
Qed.

Lemma lxor_low_byte (c K : Z) :
  0 <= c -> byte_range K ->
  Z.lxor ((Z.lxor c K) mod 256) K = c mod 256.
Proof.
  unfold byte_range. intros Hc HK. change 256 with (2 ^ 8) in *.
  apply Z.bits_inj'. intros n Hn. rewrite Z.lxor_spec.
  assert (HKmod : K = K mod 2 ^ 8) by (symmetry; apply Z.mod_small; lia).
  destruct (Z.lt_ge_cases n 8) as [Hlow|Hhigh].
  - rewrite !Z.mod_pow2_bits_low, Z.lxor_spec by lia.
    now rewrite xorb_assoc, xorb_nilpotent, xorb_false_r.
  - rewrite !Z.mod_pow2_bits_high by lia.
    rewrite HKmod, Z.mod_pow2_bits_high by lia. reflexivity.
Qed.

End EncoderMore.

(** X1. Whatever the text and the key, as long as no code unit is
    negative, [encrypt] writes two lower-case hexadecimal digits per code
    unit of the text: the token is twice as long as the text and holds
    nothing but [0-9a-f]. *)
Theorem encrypt_writes_hex_pairs (key s : Utils.jsstring) :
  Forall (fun k => 0 <= k) key -> Forall (fun c => 0 <= c) s ->
  length (Utils.encrypt key s) = (2 * length s)%nat
  /\ forallb Hex.isHexDigit (Utils.encrypt key s) = true.
Proof.
  intros Hkey Hs. unfold Utils.encrypt, Utils.textToChars.
  induction Hs as [|c s Hc _ [IHlen IHhex]]; [split; reflexivity|].
  cbn [map concat].
  rewrite (byteHex_low_digits _ (applyKeyToChar_nonneg key c Hkey Hc)).
  cbn [app length forallb]. split; [lia|].
  rewrite !hexDigit_is_hex by (apply Z.mod_pos_bound; lia). exact IHhex.
Qed.

Lemma encrypt_writes_hex_pairs_witness :
  length (Shared.paramsEncrypt [123; 8364; 125]) = 6%nat
  /\ forallb Hex.isHexDigit (Shared.paramsEncrypt [123; 8364; 125]) = true.
Proof.
  apply (encrypt_writes_hex_pairs Shared.paramsKey [123; 8364; 125]).
  - vm_compute Shared.paramsKey. repeat constructor; lia.
  - repeat constructor; lia.
Defined.

(** X2. With a key of code units below 256, decoding what [encrypt] wrote
    gives back every code unit of the text reduced modulo 256: the text
    itself when its code units are below 256, and its low bytes
    otherwise. *)
Theorem decrypt_encrypt_low_bytes (key s : Utils.jsstring) :
  Forall Utils.byte_range key -> Forall (fun c => 0 <= c) s ->
  Utils.decrypt key (Utils.encrypt key s) = map (fun c => c mod 256) s.
Proof.
  intros Hkey Hs. pose proof (key_fold_byte_range key Hkey) as HK.
  assert (Hkey' : Forall (fun k => 0 <= k) key).
  { eapply Forall_impl; [exact Hkey|]. unfold Utils.byte_range. intros; lia. }
  unfold Utils.decrypt, Utils.encrypt, Utils.textToChars.
  induction Hs as [|c s Hc _ IH]; [reflexivity|].
  cbn [map concat].
  pose proof (applyKeyToChar_nonneg key c Hkey' Hc) as Hx.
  set (x := Utils.applyKeyToChar key c) in *.
  assert (Hlow : Utils.byteHex x = Utils.byteHex (x mod 256)).
  { rewrite !byteHex_low_digits by (try apply Z.mod_pos_bound; lia).
    f_equal; [|f_equal]; f_equal; Z.to_euclidean_division_equations; lia. }
  assert (Hb : Utils.byte_range (x mod 256)) by (apply Z.mod_pos_bound; lia).
  destruct (byteHex_byte _ Hb) as (h & l & Hhl & Hh & Hl & Hparse).
  rewrite Hlow, Hhl. cbn [app Utils.matchPairs]. rewrite Hh, Hl.
  cbn [map]. rewrite Hparse. cbn [default]. f_equal; [|exact IH].
  subst x. unfold Utils.applyKeyToChar, Utils.textToChars, id.
  rewrite (fold_lxor_start key (_ mod 256)), (fold_lxor_start key c).
  rewrite (lxor_low_byte c _ Hc HK).
  unfold Utils.fromCharCode. apply Z.mod_small.
  pose proof (Z.mod_pos_bound c 256). lia.
Qed.

Lemma decrypt_encrypt_low_bytes_witness :
  Shared.paramsDecrypt (Shared.paramsEncrypt [123; 8364; 125]) = [123; 172; 125].
Proof.
  apply (decrypt_encrypt_low_bytes Shared.paramsKey [123; 8364; 125]).
  - vm_compute Shared.paramsKey. repeat constructor; unfold Utils.byte_range; lia.
  - repeat constructor; lia.
Defined.

(** ** utils.ts: [asyncForEach] *)

(** X3. [asyncForEach] runs the callback on the items in order, each with
    its index, and stops at the first one that fails: the items after it
    are not visited and the failure is that of the loop. *)
Theorem asyncForEach_stops_at_failure {St A} (cb : A -> nat -> M St unit)
    (before after : list A) (item : A) (e : exn) (s s1 s2 : St) :
  asyncForEach before cb s = (Ok tt, s1) ->
  cb item (length before) s1 = (Throw e, s2) ->
  asyncForEach (before ++ item :: after) cb s = (Throw e, s2).
Proof.
  unfold asyncForEach. intros Hbefore Hfail.
  rewrite asyncForEachFrom_app, Hbefore. cbn [asyncForEachFrom].
  unfold bind. now rewrite Nat.add_0_l, Hfail.
Qed.

Lemma asyncForEach_stops_at_failure_witness :
  asyncForEach [1; 2; 3; 4]
    (fun item index => if item =? 3 then throw (Thrown (VNum (Z.of_nat index)))
                       else modify (fun seen => seen ++ [item]))
    []
  = (Throw (Thrown (VNum 2)), [1; 2]).
Proof.
  exact (asyncForEach_stops_at_failure
           (fun item index => if item =? 3 then throw (Thrown (VNum (Z.of_nat index)))
                              else modify (fun seen => seen ++ [item]))
           [1; 2] [4] 3 (Thrown (VNum 2)) [] [1; 2] [1; 2] eq_refl eq_refl).
Defined.

(** ** server.ts: requests and batches *)





(** X4. A batch in which no emitter is called and no method handler fails
    is answered by exactly one frame, which holds the responses the
    requests are due, in the order of the requests: an "Invalid Request"
    error for an invalid element, a "not found" error or the result of the
    handler for a request with an id, nothing for a notification. *)
Theorem quiet_batch_answered_in_order `{RT : Runtime} (reg : Server.Registry)
    (client raw : string) (sock : nat) (requests : list Server.Parsed)
    (st : Server.State) :
  Server.socks st !! client = Some sock ->
  Server.isOpen sock st = true ->
  Server.parseRequest raw = Some requests ->
  forallb (Batches.quiet reg client) requests = true ->
  Server.handleRequest reg client raw st
  = (Ok tt,
     Server.written sock
       (Server.wireForm (concat (map (Batches.reply reg client) requests))) st).
Proof. apply handleRequest_quiet. Qed.

Lemma quiet_batch_answered_in_order_witness :
  Server.handleRequest (RT := Demo.host) Demo.registry "c"
    (Demo.stringify (Demo.request "hello" VNull (VStr "7"))) Demo.oneClient
  = (Ok tt,
     Server.written 0
       (Demo.stringify
          (VObj [("id", VStr "7"); ("result", VStr "goodbye"); ("jsonrpc", VStr "2.0")]))
       Demo.oneClient).
Proof.
  exact (quiet_batch_answered_in_order (RT := Demo.host) Demo.registry "c"
           (Demo.stringify (Demo.request "hello" VNull (VStr "7"))) 0%nat
           [Server.Request {| Server.method := "hello"; Server.id := VStr "7";
                              Server.params := VNull |}]
           Demo.oneClient eq_refl eq_refl eq_refl eq_refl).
Defined.

(** X5. [parseRequest] accepts an element exactly when it is an object
    whose [jsonrpc] is the string ["2.0"] and whose [method] is a string;
    the request then carries that method and the [id] and [params] of the
    object, [undefined] for one it does not have. Everything else (a
    primitive, [null], an array, another version, a method that is not a
    string) is ['invalid']. *)
Theorem validate_accepts_iff `{RT : Runtime} (obj : value)
    (request : Server.JsonRpcRequest) :
  Server.validate obj = Server.Request request
  <-> exists fields,
        obj = VObj fields
        /\ get "jsonrpc" fields = VStr "2.0"
        /\ get "method" fields = VStr (Server.method request)
        /\ Server.id request = get "id" fields
        /\ Server.params request = get "params" fields.
Proof.
  split.
  - destruct obj as [| | | | | |fields]; cbn [Server.validate]; try discriminate.
    destruct (get "jsonrpc" fields) as [| | | |version| |] eqn:Hv; try discriminate.
    destruct (String.eqb_spec version "2.0") as [->|_]; [|discriminate].
    destruct (get "method" fields) as [| | | |name| |] eqn:Hm; try discriminate.
    intros [= <-]. exists fields. cbn. auto.
  - intros (fields & -> & Hv & Hm & Hid & Hp). cbn [Server.validate].
    rewrite Hv, Hm. cbn. destruct request; cbn in *. now subst.
Qed.

(** X6. [parseRequest] never gives an empty list: a decoded array that is
    not empty has one entry per element, the check of that element, in
    order; the empty array has the single entry ['invalid']; and any other
    decoded value has one entry, its own check. *)
Theorem parseRequest_never_empty `{RT : Runtime} (raw : string) (decoded : value) :
  JSON_parse raw = Some decoded ->
  exists requests,
    Server.parseRequest raw = Some requests
    /\ requests <> []
    /\ match decoded with
       | VArr [] => requests = [Server.Invalid]
       | VArr items =>
           requests = map Server.validate items
           /\ length requests = length items
       | _ => requests = [Server.validate decoded]
       end.
Proof.
  intros Hparse. unfold Server.parseRequest. rewrite Hparse.
  eexists. split; [reflexivity|].
  destruct decoded as [| | | | |items|]; cbn [Utils.makeArray map];
    try (split; [discriminate|reflexivity]).
  destruct items as [|x items]; cbn [map].
  - split; [discriminate|reflexivity].
  - split; [discriminate|]. split; [reflexivity|].
    cbn [length]. now rewrite length_map.
Qed.

Lemma parseRequest_never_empty_witness :
  Server.parseRequest (RT := Demo.host) (Demo.stringify Demo.failingBatch)
  = Some [Server.Request {| Server.method := "boom"; Server.id := VStr "1";
                            Server.params := VNull |};
          Server.Request {| Server.method := "hello"; Server.id := VStr "2";
                            Server.params := VNull |}].
Proof.
  destruct (parseRequest_never_empty (RT := Demo.host)
              (Demo.stringify Demo.failingBatch) Demo.failingBatch eq_refl)
    as (requests & Hrun & _ & Hshape).
  cbv beta iota delta [Demo.failingBatch] in Hshape.
  destruct Hshape as [-> _]. exact Hrun.
Defined.

(** X7. The empty array as input is answered by one "Invalid Request"
    error, sent as a bare object. *)
Theorem empty_array_is_invalid_request `{RT : Runtime} (reg : Server.Registry)
    (client raw : string) (sock : nat) (st : Server.State) :
  JSON_parse raw = Some (VArr []) ->
  Server.socks st !! client = Some sock ->
  Server.isOpen sock st = true ->
  Server.handleRequest reg client raw st
  = (Ok tt,
     Server.written sock
       (JSON_stringify
          (VObj [("id", VNull);
                 ("error", VObj [("code", VNum (-32600));
                                 ("message", VStr "Invalid Request")]);
                 ("jsonrpc", VStr "2.0")])) st).
Proof.
  intros Hparse Hsock Hopen.
  assert (Hreq : Server.parseRequest raw = Some [Server.Invalid])
    by (unfold Server.parseRequest; now rewrite Hparse).
  now rewrite (handleRequest_quiet reg client raw sock
                 [Server.Invalid] st Hsock Hopen Hreq eq_refl).
Qed.

Lemma empty_array_is_invalid_request_witness :
  Server.handleRequest (RT := Demo.host) Demo.registry "c" "[]" Demo.oneClient
  = (Ok tt,
     Server.written 0
       (Demo.stringify
          (VObj [("id", VNull);
                 ("error", VObj [("code", VNum (-32600));
                                 ("message", VStr "Invalid Request")]);
                 ("jsonrpc", VStr "2.0")])) Demo.oneClient).
Proof.
  exact (empty_array_is_invalid_request (RT := Demo.host) Demo.registry "c" "[]"
           0%nat Demo.oneClient eq_refl eq_refl eq_refl).
Defined.

(** ** server.ts: methods, emitters and the colon *)

Section RoutingFacts.

Lemma substring_all (s : string) :
  String.substring 0 (String.length s) s = s.
Proof.
  induction s as [|c s IH]; [reflexivity|].
  cbn [String.length String.substring]. now rewrite IH.
Qed.

Lemma substring_at_end (s suffix : string) :
  String.substring (String.length s) (String.length suffix) (String.append s suffix)
  = suffix.
Proof.
  induction s as [|c s IH]; cbn [String.length String.append].
  - apply substring_all.
  - cbn [String.substring]. exact IH.
Qed.

Lemma length_append (s t : string) :
  String.length (String.append s t) = (String.length s + String.length t)%nat.
Proof.
  induction s as [|c s IH]; [reflexivity|].
  change (String.append (String c s) t) with (String c (String.append s t)).
  cbn [String.length]. now rewrite IH.
Qed.

Lemma endsWith_append (s suffix : string) :
  endsWith suffix (String.append s suffix) = true.
Proof.
  unfold endsWith. rewrite length_append.
  replace (String.length s + String.length suffix - String.length suffix)%nat
    with (String.length s) by lia.
  rewrite substring_at_end, String.eqb_refl, andb_true_r.
  apply Nat.leb_le. lia.
Qed.

End RoutingFacts.

(** X8. The colon at the end of the method name alone decides where a
    request goes. A method registered under a name that ends with a colon
    is never called: registering it changes the handling of no request.
    And registering an emitter changes the handling of no request whose
    method name has no colon at the end. *)
Theorem colon_decides_the_table `{RT : Runtime} (reg : Server.Registry)
    (name client : string) (sock index : nat) (request : Server.JsonRpcRequest)
    (method_handler : value -> string -> Result value)
    (emitter_handler : value -> (value -> M Server.State unit) -> string
                       -> M Server.State unit)
    (b : Server.Batch) :
  Server.dispatch (Server.registerMethod (String.append name ":") method_handler reg)
    client sock (Server.Request request) index b
  = Server.dispatch reg client sock (Server.Request request) index b
  /\ (endsWith ":" (Server.method request) = false ->
      Server.dispatch (Server.registerEmitter name emitter_handler reg)
        client sock (Server.Request request) index b
      = Server.dispatch reg client sock (Server.Request request) index b).
Proof.
  split.
  - unfold Server.dispatch.
    destruct (endsWith ":" (Server.method request)) eqn:Hcolon; cbn [negb];
      [reflexivity|].
    unfold Server.registerMethod. cbn [Server.methods].
    rewrite lookup_insert_ne; [reflexivity|].
    intros Heq. rewrite <- Heq, endsWith_append in Hcolon. discriminate.
  - intros Hcolon. unfold Server.dispatch. rewrite Hcolon. reflexivity.
Qed.

Lemma colon_decides_the_table_witness :
  Server.dispatch (RT := Demo.host)
    (Server.registerEmitter "hello" (fun _ _ _ => throw TypeError) Demo.registry)
    "c" 0
    (Server.Request {| Server.method := "hello"; Server.id := VStr "7";
                       Server.params := VNull |}) 0
    {| Server.responses := []; Server.server := Demo.oneClient |}
  = Server.dispatch (RT := Demo.host) Demo.registry "c" 0
      (Server.Request {| Server.method := "hello"; Server.id := VStr "7";
                         Server.params := VNull |}) 0
      {| Server.responses := []; Server.server := Demo.oneClient |}.
Proof.
  exact (proj2 (colon_decides_the_table (RT := Demo.host) Demo.registry "hello" "c"
                  0%nat 0%nat
                  {| Server.method := "hello"; Server.id := VStr "7";
                     Server.params := VNull |}
                  (fun _ _ => Ok VNull) (fun _ _ _ => throw TypeError)
                  {| Server.responses := []; Server.server := Demo.oneClient |})
           eq_refl).
Defined.

(** X9. An emitter registered as [name] is the one a request for
    [name + ':'] calls, whatever [name] is: the handler gets the
    parameters of the request, the id of the client and an [emit] bound to
    the socket of the client and the id of the request, and its [emit]
    closure is recorded. Nothing is appended to the responses. *)
Theorem registered_emitter_is_called `{RT : Runtime} (reg : Server.Registry)
    (name client : string) (sock index : nat) (id params : value)
    (handler : value -> (value -> M Server.State unit) -> string
               -> M Server.State unit)
    (b : Server.Batch) :
  Server.dispatch (Server.registerEmitter name handler reg) client sock
    (Server.Request {| Server.method := String.append name ":";
                       Server.id := id; Server.params := params |}) index b
  = match handler params (Server.emit sock id) client
            (Server.withEmits (fun es => es ++ [(sock, id)]) (Server.server b)) with
    | (r, st) => (r, {| Server.responses := Server.responses b; Server.server := st |})
    end.
Proof.
  unfold Server.dispatch. cbn [Server.method Server.id Server.params].
  rewrite endsWith_append. cbn [negb].
  unfold Server.registerEmitter. cbn [Server.emitters].
  rewrite lookup_insert_eq. unfold Server.onServer, bind, modify. reflexivity.
Qed.

Section EmitFacts.

Import Server.
Context `{RT : Runtime}.

Lemma emit_open (sock : nat) (id data : value) (st : State) :
  isOpen sock st = true ->
  emit sock id data st = (Ok tt, written sock (Batches.emitFrame id data) st).
Proof.
  intros Hopen. unfold emit.
  exact (send_objects sock (VObj [("result", data); ("id", id)]) st Hopen eq_refl).
Qed.

Lemma written_wire (sock : nat) (frame : string) (ws : WebSocket) (st : State) :
  heap st !! sock = Some ws ->
  heap (written sock frame st) !! sock
  = Some {| isClosed := isClosed ws; wire := wire ws ++ [frame] |}.
Proof.
  intros Hws. unfold written. rewrite Hws. cbn [heap withHeap].
  apply list_lookup_insert_eq. now apply lookup_lt_Some in Hws.
Qed.

End EmitFacts.

(** X10. On an open socket every call of [emit] writes one frame of its
    own, the bare object [{result: data, id: <id of the request>, jsonrpc:
    "2.0"}], and a run of calls writes its frames in the order of the
    calls, after what the socket already carried. *)
Theorem emits_are_sent_in_order `{RT : Runtime} (sock : nat) (id : value)
    (datas : list value) (ws : Server.WebSocket) (st : Server.State) :
  Server.heap st !! sock = Some ws ->
  Server.isClosed ws = false ->
  let st' := fold_left (fun st data => snd (Server.emit sock id data st)) datas st in
  Server.heap st' !! sock
  = Some {| Server.isClosed := false;
            Server.wire := Server.wire ws ++ map (Batches.emitFrame id) datas |}
  /\ Server.socks st' = Server.socks st.
Proof.
  revert ws st. induction datas as [|data datas IH]; intros ws st Hws Hopen.
  - cbn. rewrite app_nil_r, Hws. destruct ws; cbn in *; subst. auto.
  - cbn [fold_left map].
    assert (Ho : Server.isOpen sock st = true)
      by (unfold Server.isOpen; now rewrite Hws, Hopen).
    rewrite (emit_open sock id data st Ho). cbn [snd].
    pose proof (written_wire sock (Batches.emitFrame id data) ws st Hws) as Hw.
    destruct (IH _ _ Hw Hopen) as [Hheap Hsocks].
    cbn zeta in *. rewrite Hheap, Hsocks. cbn [Server.wire].
    rewrite <- app_assoc. split; [reflexivity|].
    unfold Server.written. now rewrite Hws.
Qed.

Lemma emits_are_sent_in_order_witness :
  let st' := fold_left
               (fun st data => snd (Server.emit (RT := Demo.host) 0 (VStr "sub") data st))
               [VNum 1; VNum 2; VNum 3] Demo.oneClient in
  Server.heap st' !! 0%nat
  = Some {| Server.isClosed := false;
            Server.wire :=
              [] ++ map (Batches.emitFrame (RT := Demo.host) (VStr "sub"))
                      [VNum 1; VNum 2; VNum 3] |}
  /\ Server.socks st' = Server.socks Demo.oneClient.
Proof.
  exact (emits_are_sent_in_order (RT := Demo.host) 0%nat (VStr "sub")
           [VNum 1; VNum 2; VNum 3]
           {| Server.isClosed := false; Server.wire := [] |} Demo.oneClient
           eq_refl eq_refl).
Defined.

(** X11. Once the close event of a connection has been handled, a request
    that still arrives under its client id is dropped: the server writes a
    warning on the console and nothing to any socket. *)
Theorem request_after_close_is_dropped `{RT : Runtime} (reg : Server.Registry)
    (client raw : string) (sock : nat) (ws : Server.WebSocket) (st : Server.State) :
  Server.heap st !! sock = Some ws ->
  let st' := snd (Server.onEvent reg client sock Server.Close st) in
  exists st'',
    Server.handleRequest reg client raw st' = (Ok tt, st'')
    /\ Server.heap st'' = Server.heap st'
    /\ Server.socks st'' = Server.socks st'
    /\ Server.console st''
       = Server.console st'
         ++ ["Warn: recieved a request from and undefined connection"].
Proof.
  intros Hws st'.
  destruct (close_event_closes reg client sock ws st Hws) as [_ Hgone].
  fold st' in Hgone. unfold Server.handleRequest. rewrite Hgone.
  eexists. split; [reflexivity|]. cbn. auto.
Qed.

Lemma request_after_close_is_dropped_witness :
  exists st'',
    Server.handleRequest (RT := Demo.host) Demo.registry "c"
      (Demo.stringify (Demo.request "hello" VNull (VStr "7"))) Demo.afterClose
    = (Ok tt, st'')
    /\ Server.heap st'' = Server.heap Demo.afterClose
    /\ Server.socks st'' = Server.socks Demo.afterClose
    /\ Server.console st''
       = Server.console Demo.afterClose
         ++ ["Warn: recieved a request from and undefined connection"].
Proof.
  exact (request_after_close_is_dropped (RT := Demo.host) Demo.registry "c"
           (Demo.stringify (Demo.request "hello" VNull (VStr "7"))) 0%nat
           {| Server.isClosed := false; Server.wire := ["[]"] |} Demo.subscribed
           eq_refl).
Defined.

(** ** client.ts: the queue of outgoing messages *)

Section QueueFacts.

Import Client.
Context `{RT : Runtime}.
Variable options : ConnectOptions.t.

Lemma sendMessage_frame (method : string) (params : value) (id : option string)
    (q : list string) (c : State) :
  outgoing c = Some q ->
  sendMessage method params id c
  = (Ok tt,
     newOutgoingMessageNotifier
       (withOutgoing (Some (q ++ [Frames.requestFrame method params id])) c)).
Proof.
  intros Hq. unfold sendMessage. rewrite Hq.
  unfold Frames.requestFrame, Frames.requestObject.
  destruct id as [i|]; [|reflexivity].
  destruct (String.eqb i ""); reflexivity.
Qed.

Lemma withSockets_const (a b : list WebSocket) (c : State) :
  a = b -> withSockets (fun _ => a) c = withSockets (fun _ => b) c.
Proof. now intros ->. Qed.

Lemma wsSend_all (ws : nat) (messages : list string) (s : WebSocket) (c : State) :
  sockets c !! ws = Some s ->
  fold_left (fun c message => wsSend ws message c) messages c
  = withSockets
      (fun _ => <[ws := {| readyState := readyState s; sent := sent s ++ messages |}]>
                  (sockets c)) c.
Proof.
  revert s c. induction messages as [|m messages IH]; intros s c Hs.
  - cbn [fold_left]. rewrite app_nil_r.
    replace {| readyState := readyState s; sent := sent s |} with s by now destruct s.
    rewrite list_insert_id by exact Hs. now rewrite withSockets_id.
  - cbn [fold_left]. unfold wsSend at 2. rewrite Hs.
    rewrite (IH {| readyState := readyState s; sent := sent s ++ [m] |}).
    + cbn [sockets withSockets readyState sent].
      change (withSockets ?f (withSockets ?g c)) with (withSockets (fun l => f (g l)) c).
      apply withSockets_const. rewrite list_insert_insert_eq.
      now rewrite <- (List.app_assoc (sent s) [m] messages).
    + cbn [sockets withSockets]. apply list_lookup_insert_eq.
      now apply lookup_lt_Some in Hs.
Qed.

Lemma sendMessage_waiting (method : string) (params : value) (id : option string)
    (ws : nat) (s : WebSocket) (q : list string) (c : State) :
  notifier c = Some ws -> sockets c !! ws = Some s -> readyState s <> OPEN ->
  outgoing c = Some q ->
  sendMessage method params id c
  = (Ok tt, withOutgoing (Some (q ++ [Frames.requestFrame method params id])) c).
Proof.
  intros Hn Hs Hr Hq. rewrite (sendMessage_frame _ _ _ q c Hq).
  unfold newOutgoingMessageNotifier. cbn [notifier sockets withOutgoing].
  rewrite Hn, Hs. destruct s as [[] ?]; cbn in Hr; congruence.
Qed.

Lemma sendMessages_waiting (messages : list (string * value * option string))
    (ws : nat) (s : WebSocket) (q : list string) (c : State) :
  notifier c = Some ws -> sockets c !! ws = Some s -> readyState s <> OPEN ->
  outgoing c = Some q ->
  Frames.sendMessages messages c
  = withOutgoing (Some (q ++ Frames.framesOf messages)) c.
Proof.
  unfold Frames.sendMessages, Frames.framesOf.
  revert q c. induction messages as [|m messages IH]; intros q c Hn Hs Hr Hq.
  - cbn. rewrite app_nil_r, <- Hq. now destruct c.
  - cbn [fold_left map].
    rewrite (sendMessage_waiting _ _ _ ws s q c Hn Hs Hr Hq). cbn [snd].
    rewrite (IH (q ++ [Frames.requestFrame (m.1).1 (m.1).2 m.2])
               (withOutgoing (Some (q ++ [Frames.requestFrame (m.1).1 (m.1).2 m.2])) c))
      by (try assumption; reflexivity).
    rewrite <- app_assoc. reflexivity.
Qed.

End QueueFacts.

(** X12. Messages sent while the socket is not open are kept in the queue
    in the order of the calls and nothing is written to the socket; when
    the socket opens, it carries what was queued, in that order, after what
    it had already sent, and the queue is empty. *)
Theorem queued_messages_are_flushed_in_order `{RT : Runtime}
    (options : ConnectOptions.t)
    (messages : list (string * value * option string))
    (ws : nat) (s : Client.WebSocket) (q : list string) (c : Client.State) :
  Client.notifier c = Some ws ->
  Client.sockets c !! ws = Some s ->
  Client.readyState s <> Client.OPEN ->
  Client.outgoing c = Some q ->
  let c1 := Frames.sendMessages messages c in
  let c2 := Client.step options (Client.Open ws) c1 in
  Client.sockets c1 = Client.sockets c
  /\ Client.outgoing c1 = Some (q ++ Frames.framesOf messages)
  /\ Client.sockets c2 !! ws
     = Some {| Client.readyState := Client.OPEN;
               Client.sent := Client.sent s ++ q ++ Frames.framesOf messages |}
  /\ Client.outgoing c2 = Some [].
Proof.
  intros Hn Hs Hr Hq c1 c2. subst c2 c1.
  rewrite (sendMessages_waiting messages ws s q c Hn Hs Hr Hq).
  split; [reflexivity|]. split; [reflexivity|].
  cbn [Client.step]. unfold Client.setReadyState.
  cbn [Client.sockets Client.withOutgoing]. rewrite Hs.
  unfold Client.onopen, Client.sendAllMessages.
  cbn [Client.outgoing Client.withOutgoing Client.withSockets].
  assert (Hlt : (ws < length (Client.sockets c))%nat) by now apply lookup_lt_Some in Hs.
  rewrite (wsSend_all ws _ {| Client.readyState := Client.OPEN; Client.sent := Client.sent s |})
    by (cbn [Client.sockets Client.withSockets]; now apply list_lookup_insert_eq).
  destruct (ws =? 0)%nat;
    cbn [Client.sockets Client.outgoing Client.withOutgoing Client.withSockets
         Client.withConnected Client.readyState Client.sent];
    (split; [|reflexivity]);
    rewrite list_insert_insert_eq; now apply list_lookup_insert_eq.
Qed.

Lemma queued_messages_are_flushed_in_order_witness :
  let c := Client.tryToConnect Client.initial in
  let messages := [("hello", VNull, Some "call1"); ("log", VStr "hi", None)] in
  let c2 := Client.step (RT := Demo.clientHost) Demo.noOptions (Client.Open 0)
              (Frames.sendMessages (RT := Demo.clientHost) messages c) in
  Client.sockets c2 !! 0%nat
  = Some {| Client.readyState := Client.OPEN;
            Client.sent := [] ++ [] ++ Frames.framesOf (RT := Demo.clientHost) messages |}
  /\ Client.outgoing c2 = Some [].
Proof.
  intros c messages.
  exact (proj2 (proj2 (queued_messages_are_flushed_in_order (RT := Demo.clientHost)
           Demo.noOptions messages 0%nat
           {| Client.readyState := Client.CONNECTING; Client.sent := [] |} [] c
           eq_refl eq_refl ltac:(discriminate) eq_refl))).
Defined.

(** X13. On an open connection a message is written to the socket in the
    call that sends it, after whatever was still queued, and the queue is
    left empty. *)
Theorem open_connection_sends_at_once `{RT : Runtime}
    (method : string) (params : value) (id : option string)
    (ws : nat) (s : Client.WebSocket) (q : list string) (c : Client.State) :
  Client.notifier c = Some ws ->
  Client.sockets c !! ws = Some s ->
  Client.readyState s = Client.OPEN ->
  Client.outgoing c = Some q ->
  exists c',
    Client.sendMessage method params id c = (Ok tt, c')
    /\ Client.sockets c' !! ws
       = Some {| Client.readyState := Client.OPEN;
                 Client.sent := Client.sent s ++ q
                                ++ [Frames.requestFrame method params id] |}
    /\ Client.outgoing c' = Some [].
Proof.
  intros Hn Hs Hr Hq. rewrite (sendMessage_frame _ _ _ q c Hq).
  eexists. split; [reflexivity|].
  unfold Client.newOutgoingMessageNotifier. cbn [Client.notifier Client.sockets Client.withOutgoing].
  rewrite Hn, Hs. destruct s as [r sent0]. cbn in Hr. subst r.
  unfold Client.sendAllMessages. cbn [Client.outgoing Client.withOutgoing].
  rewrite (wsSend_all ws _ {| Client.readyState := Client.OPEN; Client.sent := sent0 |})
    by exact Hs.
  cbn [Client.sockets Client.outgoing Client.withOutgoing Client.withSockets
       Client.readyState Client.sent].
  split; [|reflexivity].
  apply list_lookup_insert_eq. now apply lookup_lt_Some in Hs.
Qed.

Lemma open_connection_sends_at_once_witness :
  exists c',
    Client.sendMessage (RT := Demo.clientHost) "hello" VNull (Some "call1")
      Demo.connectedClient = (Ok tt, c')
    /\ Client.sockets c' !! 0%nat
       = Some {| Client.readyState := Client.OPEN;
                 Client.sent :=
                   [] ++ [] ++ [Frames.requestFrame (RT := Demo.clientHost)
                                  "hello" VNull (Some "call1")] |}
    /\ Client.outgoing c' = Some [].
Proof.
  exact (open_connection_sends_at_once (RT := Demo.clientHost) "hello" VNull
           (Some "call1") 0%nat
           {| Client.readyState := Client.OPEN; Client.sent := [] |} []
           Demo.connectedClient eq_refl eq_refl eq_refl eq_refl).
Defined.

(** ** client.ts: incoming responses *)

Section ResponseFacts.

Import Client.
Context `{RT : Runtime}.
Variable options : ConnectOptions.t.



Lemma checkResponses_null (objs : list value) :
  In VNull objs -> checkResponses objs = None.
Proof.
  induction objs as [|obj objs IH]; [intros []|].
  intros [->|Hin]; [reflexivity|].
  cbn [checkResponses]. destruct (checkResponse obj); [|reflexivity].
  now rewrite (IH Hin).
Qed.

Lemma warnings_keep (n : nat) (c : State) :
  listeners (warnings n c) = listeners c
  /\ promises (warnings n c) = promises c
  /\ sockets (warnings n c) = sockets c
  /\ outgoing (warnings n c) = outgoing c.
Proof.
  unfold warnings. induction n as [|n (Hl & Hp & Hs & Ho)]; [auto|].
  simpl Nat.iter. cbn [effect listeners promises sockets outgoing]. auto.
Qed.

End ResponseFacts.

(** X14. When the response to a pending call carries an [error] that is
    truthy, the promise of the call is rejected with that error and the
    entry of the call is removed, whether the response also has a [result]
    or not. *)
Theorem call_rejects_on_error_response `{RT : Runtime} (options : ConnectOptions.t)
    (key frame : string) (fields : list (string * value)) (c : Client.State) :
  Client.pendingCall key c ->
  JSON_parse frame = Some (VObj fields) ->
  has "hasOwnProperty" fields = false ->
  get "id" fields = VStr key ->
  truthy (get "error" fields) = true ->
  let c' := Client.onmessage options (Client.TextData frame) c in
  Client.promises c' !! key
  = Some (Client.Rejected (Thrown (get "error" fields)))
  /\ Client.listeners c' !! key = None.
Proof.
  intros [Hl Hp] Hparse Hown Hid Herr c'. subst c'.
  assert (Hobj : Frames.responseObject (VStr key) fields).
  { repeat split; try assumption.
    - apply get_has. rewrite Hid. discriminate.
    - rewrite Herr. apply orb_true_r. }
  rewrite (onmessage_one options frame fields (VStr key) c Hparse Hobj).
  unfold Client.deliver. cbn [Client.id Client.error Client.result].
  rewrite Hl. unfold Client.fire. rewrite Herr. unfold Client.settle.
  cbn [Client.promises Client.withListeners]. rewrite Hp.
  cbn [Client.promises Client.listeners Client.withPromises Client.withListeners].
  split; [apply lookup_insert_eq|apply lookup_delete_eq].
Qed.

Lemma call_rejects_on_error_response_witness :
  let c' := Client.onmessage (RT := Demo2.host) Demo.noOptions
              (Client.TextData (Demo.stringify Demo2.callFailed)) Demo2.calling in
  Client.promises c' !! "call1" = Some (Client.Rejected (Thrown Demo2.rpcError))
  /\ Client.listeners c' !! "call1" = None.
Proof.
  exact (call_rejects_on_error_response (RT := Demo2.host) Demo.noOptions "call1"
           (Demo.stringify Demo2.callFailed)
           [("error", Demo2.rpcError); ("id", VStr "call1"); ("jsonrpc", VStr "2.0")]
           Demo2.calling (conj eq_refl eq_refl) eq_refl eq_refl eq_refl eq_refl).
Defined.


(** X15. A response whose [id] has no listener is dropped without a
    trace: the id of a call already answered, an unknown string, or an id
    that is not a string at all, such as a number. The state of the client
    does not change. *)
Theorem unmatched_response_is_dropped `{RT : Runtime} (options : ConnectOptions.t)
    (frame : string) (fields : list (string * value)) (idv : value)
    (c : Client.State) :
  JSON_parse frame = Some (VObj fields) ->
  Frames.responseObject idv fields ->
  Frames.unmatched c idv ->
  Client.onmessage options (Client.TextData frame) c = c.
Proof.
  intros Hparse Hobj Hun.
  rewrite (onmessage_one options frame fields idv c Hparse Hobj).
  unfold Client.deliver. cbn [Client.id].
  destruct idv; cbn [Frames.unmatched] in Hun; try reflexivity; [contradiction|].
  now rewrite Hun.
Qed.

Lemma unmatched_response_is_dropped_witness :
  Client.onmessage (RT := Demo2.host) Demo.noOptions
    (Client.TextData (Demo.stringify Demo2.numbered)) Demo2.calling
  = Demo2.calling.
Proof.
  exact (unmatched_response_is_dropped (RT := Demo2.host) Demo.noOptions
           (Demo.stringify Demo2.numbered)
           [("id", VNum 5); ("result", VNum 1); ("jsonrpc", VStr "2.0")] (VNum 5)
           Demo2.calling eq_refl
           (conj eq_refl (conj eq_refl (conj eq_refl eq_refl))) I).
Defined.


(** X16. A response with the id [null] and a truthy [error] goes to
    [onGeneralError] when the option is given, and the responses after it
    in the frame are delivered. When the option is not given the error is
    raised out of the handler of the message, and the responses after it in
    the frame are not delivered. *)
Theorem untargeted_error_is_routed `{RT : Runtime} (options : ConnectOptions.t)
    (data : Client.MessageData) (r : Client.Response) (rest : list Client.Response)
    (n : nat) (c : Client.State) :
  Client.parseResponse data = (Some (r :: rest), n) ->
  Client.id r = VNull ->
  truthy (Client.error r) = true ->
  Client.onmessage options data c
  = if ConnectOptions.onGeneralError options
    then match Client.forEach (Client.deliver options) rest
                 (Client.effect (Client.GeneralError (Client.error r))
                    (Client.warnings n c)) with
         | (Ok _, c') => c'
         | (Throw e, c') => Client.effect (Client.Uncaught e) c'
         end
    else Client.effect (Client.Uncaught (Thrown (Client.error r)))
           (Client.warnings n c).
Proof.
  intros Hparse Hid Herr. unfold Client.onmessage. rewrite Hparse.
  cbn [Client.forEach]. unfold bind, Client.deliver at 1. rewrite Hid, Herr.
  destruct (ConnectOptions.onGeneralError options); reflexivity.
Qed.

Lemma untargeted_error_is_routed_witness :
  Client.log
    (Client.onmessage (RT := Demo2.host) (Demo2.silent None)
       (Client.TextData (Demo.stringify Demo2.untargetedThenEmitted)) Demo2.listening)
  = [Client.Uncaught (Thrown Demo2.rpcError)]
  /\ Client.log
       (Client.onmessage (RT := Demo2.host) (Demo2.reporting None)
          (Client.TextData (Demo.stringify Demo2.untargetedThenEmitted))
          Demo2.listening)
     = [Client.GeneralError Demo2.rpcError;
        Client.ListenerCalled Demo.listenOptions (VNum 1)].
Proof.
  split.
  - rewrite (untargeted_error_is_routed (RT := Demo2.host) (Demo2.silent None)
               (Client.TextData (Demo.stringify Demo2.untargetedThenEmitted))
               {| Client.id := VNull; Client.result := VUndefined;
                  Client.error := Demo2.rpcError |}
               [{| Client.id := VStr "sub"; Client.result := VNum 1;
                   Client.error := VUndefined |}] 0 Demo2.listening
               eq_refl eq_refl eq_refl).
    reflexivity.
  - rewrite (untargeted_error_is_routed (RT := Demo2.host) (Demo2.reporting None)
               (Client.TextData (Demo.stringify Demo2.untargetedThenEmitted))
               {| Client.id := VNull; Client.result := VUndefined;
                  Client.error := Demo2.rpcError |}
               [{| Client.id := VStr "sub"; Client.result := VNum 1;
                   Client.error := VUndefined |}] 0 Demo2.listening
               eq_refl eq_refl eq_refl).
    reflexivity.
Defined.


(** X17. [options.listener] of a subscription is not called for a response
    whose result is falsy ([0], the empty string, [false], [null]): such a
    response leaves the client as it was. *)
Theorem listener_skips_falsy_result `{RT : Runtime} (options : ConnectOptions.t)
    (key frame : string) (data : value) (opts : ListenOptions.t) (c : Client.State) :
  Client.listeners c !! key = Some (Client.Subscription opts) ->
  Client.carries key frame data ->
  truthy data = false ->
  Client.onmessage options (Client.TextData frame) c = c.
Proof.
  intros Hl Hc Hfalsy.
  destruct (onmessage_carries options key frame data c Hc) as (error & Herr & ->).
  rewrite Hl, (fire_subscription opts error data c Herr), Hfalsy.
  now rewrite andb_false_r.
Qed.

Lemma listener_skips_falsy_result_witness :
  Client.onmessage (RT := Demo2.host) Demo.noOptions
    (Client.TextData (Demo.stringify Demo2.emittedZero)) Demo2.listening
  = Demo2.listening.
Proof.
  refine (listener_skips_falsy_result (RT := Demo2.host) Demo.noOptions "sub"
            (Demo.stringify Demo2.emittedZero) (VNum 0) Demo.listenOptions
            Demo2.listening eq_refl _ eq_refl).
  eexists; split; [reflexivity|]. eexists; repeat split; reflexivity.
Defined.


(** X18. A response with a truthy [error] for a subscription calls
    [options.errorHandler] with it, when given, then [options.listener]
    with the result when that is given and the result is truthy; the
    subscription stays registered. *)
Theorem subscription_error_is_handled `{RT : Runtime} (options : ConnectOptions.t)
    (key frame : string) (fields : list (string * value)) (opts : ListenOptions.t)
    (c : Client.State) :
  Client.listeners c !! key = Some (Client.Subscription opts) ->
  JSON_parse frame = Some (VObj fields) ->
  has "hasOwnProperty" fields = false ->
  get "id" fields = VStr key ->
  truthy (get "error" fields) = true ->
  let c' := Client.onmessage options (Client.TextData frame) c in
  Client.listeners c' !! key = Some (Client.Subscription opts)
  /\ Client.log c'
     = Client.log c
       ++ (if ListenOptions.errorHandler opts
           then [Client.ErrorHandlerCalled opts (get "error" fields)] else [])
       ++ (if ListenOptions.listener opts && truthy (get "result" fields)
           then [Client.ListenerCalled opts (get "result" fields)] else []).
Proof.
  intros Hl Hparse Hown Hid Herr c'. subst c'.
  assert (Hobj : Frames.responseObject (VStr key) fields).
  { repeat split; try assumption.
    - apply get_has. rewrite Hid. discriminate.
    - rewrite Herr. apply orb_true_r. }
  rewrite (onmessage_one options frame fields (VStr key) c Hparse Hobj).
  unfold Client.deliver. cbn [Client.id Client.error Client.result].
  rewrite Hl. unfold Client.fire. rewrite Herr, andb_true_r, truthy_nullish.
  destruct (ListenOptions.errorHandler opts), (ListenOptions.listener opts);
    cbn [andb]; try destruct (truthy (get "result" fields)) eqn:Hr;
    cbn [Client.effect Client.listeners Client.log];
    rewrite ?(nullish_truthy _ Hr), ?app_nil_r, <- ?app_assoc; auto.
Qed.

Lemma subscription_error_is_handled_witness :
  let c' := Client.onmessage (RT := Demo2.host) Demo.noOptions
              (Client.TextData (Demo.stringify Demo2.subFailed)) Demo2.listening in
  Client.listeners c' !! "sub" = Some (Client.Subscription Demo.listenOptions)
  /\ Client.log c'
     = Client.log Demo2.listening ++ []
       ++ [Client.ListenerCalled Demo.listenOptions (VNum 4)].
Proof.
  exact (subscription_error_is_handled (RT := Demo2.host) Demo.noOptions "sub"
           (Demo.stringify Demo2.subFailed)
           [("id", VStr "sub"); ("error", Demo2.rpcError); ("result", VNum 4);
            ("jsonrpc", VStr "2.0")]
           Demo.listenOptions Demo2.listening eq_refl eq_refl eq_refl eq_refl eq_refl).
Defined.


(** X19. A [null] among the elements of a decoded frame makes the client
    ignore the whole frame, the valid responses before and after it
    included: only warnings are written; listeners, promises, sockets and
    the queue are as they were. *)
Theorem null_element_drops_the_frame `{RT : Runtime} (options : ConnectOptions.t)
    (frame : string) (objs : list value) (c : Client.State) :
  JSON_parse frame = Some (VArr objs) ->
  In VNull objs ->
  let c' := Client.onmessage options (Client.TextData frame) c in
  Client.listeners c' = Client.listeners c
  /\ Client.promises c' = Client.promises c
  /\ Client.sockets c' = Client.sockets c
  /\ Client.outgoing c' = Client.outgoing c
  /\ exists n, c' = Client.warnings (S n) c.
Proof.
  intros Hparse Hin c'. subst c'.
  unfold Client.onmessage, Client.parseResponse. rewrite Hparse.
  cbn [Utils.makeArray]. rewrite (checkResponses_null objs Hin).
  destruct (warnings_keep (S (Client.warningsBeforeRaise objs)) c)
    as (Hl & Hp & Hs & Ho).
  repeat split; try assumption. now eexists.
Qed.

Lemma null_element_drops_the_frame_witness :
  let c' := Client.onmessage (RT := Demo2.host) Demo.noOptions
              (Client.TextData (Demo.stringify Demo2.emittedThenNull))
              Demo2.listening in
  Client.listeners c' = Client.listeners Demo2.listening
  /\ Client.promises c' = Client.promises Demo2.listening
  /\ Client.sockets c' = Client.sockets Demo2.listening
  /\ Client.outgoing c' = Client.outgoing Demo2.listening
  /\ exists n, c' = Client.warnings (S n) Demo2.listening.
Proof.
  exact (null_element_drops_the_frame (RT := Demo2.host) Demo.noOptions
           (Demo.stringify Demo2.emittedThenNull) [Demo.emitted 1; VNull]
           Demo2.listening eq_refl (or_intror (or_introl eq_refl))).
Defined.


(** ** client.ts: the retry policy *)

Section RetryMore.

Import Client.
Context `{RT : Runtime}.
Variable options : ConnectOptions.t.
Variable limit : nat.
Hypothesis positive : limit <> 0%nat.
Hypothesis limited : ConnectOptions.retryCount options = Some (Z.of_nat limit).

Lemma retryLimit_finite : retryLimit options = Finite (Z.of_nat limit).
Proof.
  unfold retryLimit. rewrite limited.
  destruct (Z.eqb_spec (Z.of_nat limit) 0); [lia|reflexivity].
Qed.

Lemma setReadyState_keeps (ws : nat) (r : ReadyState) (c : State) :
  outgoing (setReadyState ws r c) = outgoing c
  /\ length (sockets (setReadyState ws r c)) = length (sockets c)
  /\ log (setReadyState ws r c) = log c
  /\ retryCount (setReadyState ws r c) = retryCount c
  /\ timers (setReadyState ws r c) = timers c.
Proof.
  unfold setReadyState. destruct (sockets c !! ws); [|tauto].
  cbn [outgoing sockets log retryCount timers withSockets].
  now rewrite length_insert.
Qed.

(** One round when [onGeneralError] is given. *)
Lemma round_reporting (c : State) :
  ConnectOptions.onGeneralError options = true ->
  outgoing c <> None ->
  let c' := failAndRetry options c in
  outgoing c' = outgoing c
  /\ length (sockets c') = S (length (sockets c))
  /\ retryCount c' = retryCount c + 1
  /\ log c' = log c ++ (if Z.of_nat limit <=? retryCount c
                        then [GeneralError failedToConnect] else []).
Proof.
  intros Hgiven Hopen c'. subst c'. unfold failAndRetry. cbn [step].
  set (c1 := setReadyState (length (sockets c) - 1) CLOSED c).
  destruct (setReadyState_keeps (length (sockets c) - 1) CLOSED c)
    as (Ho & Hs & Hl & Hr & _). fold c1 in Ho, Hs, Hl, Hr.
  unfold onerror. rewrite retryLimit_finite, Hgiven. cbn [reached]. rewrite Hr.
  assert (Hpop : forall c2 : State,
             outgoing c2 = outgoing c -> length (sockets c2) = length (sockets c) ->
             outgoing (ontimeout (withTimers (fun t => t ++ [retryDelay options])
                                    (withRetryCount (retryCount c + 1) c2)))
             = outgoing c
             /\ length (sockets (ontimeout (withTimers (fun t => t ++ [retryDelay options])
                                    (withRetryCount (retryCount c + 1) c2))))
                = S (length (sockets c))
             /\ retryCount (ontimeout (withTimers (fun t => t ++ [retryDelay options])
                                    (withRetryCount (retryCount c + 1) c2)))
                = retryCount c + 1
             /\ log (ontimeout (withTimers (fun t => t ++ [retryDelay options])
                                    (withRetryCount (retryCount c + 1) c2)))
                = log c2).
  { intros c2 Ho2 Hs2. unfold ontimeout. cbn [timers withTimers withRetryCount].
    destruct (timers c2 ++ [retryDelay options]) as [|t rest] eqn:Ht;
      [now destruct (timers c2)|].
    cbn [outgoing withTimers withRetryCount]. rewrite Ho2.
    destruct (outgoing c); [|congruence].
    unfold tryToConnect.
    cbn [outgoing sockets log retryCount withNotifier withSockets withTimers
         withRetryCount].
    rewrite length_app, Hs2. cbn [length]. repeat split; first [assumption | reflexivity | lia]. }
  destruct (Z.of_nat limit <=? retryCount c).
  - destruct (Hpop (effect (GeneralError failedToConnect) c1) Ho Hs)
      as (Ho' & Hs' & Hr' & Hl').
    cbn [retryCount effect] in *. rewrite ?Hr.
    rewrite Ho', Hs', Hr', Hl'. cbn [log effect]. now rewrite Hl.
  - destruct (Hpop c1 Ho Hs) as (Ho' & Hs' & Hr' & Hl').
    rewrite ?Hr. rewrite Ho', Hs', Hr', Hl', Hl, app_nil_r. auto.
Qed.

(** One round when [onGeneralError] is not given and no other timer is
    pending. *)
Lemma round_silent (c : State) :
  ConnectOptions.onGeneralError options = false ->
  outgoing c <> None -> timers c = [] ->
  let c' := failAndRetry options c in
  outgoing c' = outgoing c /\ timers c' = []
  /\ (if Z.of_nat limit <=? retryCount c
      then length (sockets c') = length (sockets c)
           /\ retryCount c' = retryCount c
           /\ log c' = log c ++ [Uncaught (Thrown failedToConnect)]
      else length (sockets c') = S (length (sockets c))
           /\ retryCount c' = retryCount c + 1
           /\ log c' = log c).
Proof.
  intros Hgiven Hopen Hnone c'. subst c'. unfold failAndRetry. cbn [step].
  set (c1 := setReadyState (length (sockets c) - 1) CLOSED c).
  destruct (setReadyState_keeps (length (sockets c) - 1) CLOSED c)
    as (Ho & Hs & Hl & Hr & Ht). fold c1 in Ho, Hs, Hl, Hr, Ht.
  unfold onerror. rewrite retryLimit_finite, Hgiven. cbn [reached]. rewrite Hr.
  destruct (Z.of_nat limit <=? retryCount c).
  - unfold ontimeout. cbn [timers effect]. rewrite Ht, Hnone.
    cbn [outgoing timers sockets retryCount log effect].
    rewrite ?Ho, ?Ht, ?Hs, ?Hr, ?Hl. auto.
  - unfold ontimeout. cbn [timers withTimers withRetryCount]. rewrite Ht, Hnone.
    cbn [app outgoing withTimers withRetryCount]. rewrite Ho.
    destruct (outgoing c); [|congruence].
    unfold tryToConnect.
    cbn [outgoing sockets log retryCount timers withNotifier withSockets withTimers
         withRetryCount].
    rewrite length_app, ?Hs, ?Hl, ?Hr. cbn [length].
    repeat split; first [assumption | reflexivity | lia].
Qed.

Lemma repeat_snoc {A} (x : A) (n : nat) : repeat x n ++ [x] = repeat x (S n).
Proof. induction n as [|n IH]; [reflexivity|]. cbn. now rewrite IH. Qed.

End RetryMore.

(** X20. With a limit of [limit] retries and [onGeneralError] given, the
    client never stops retrying: starting from a count of zero, after [n]
    errors each followed by its timer, [n] more sockets have been opened,
    and "Failed to connect" (code 101) has been reported once for every
    error from the [limit]-th on. *)
Theorem exhausted_retries_go_on_with_handler `{RT : Runtime}
    (options : ConnectOptions.t) (limit n : nat) (c : Client.State) :
  limit <> 0%nat ->
  ConnectOptions.retryCount options = Some (Z.of_nat limit) ->
  ConnectOptions.onGeneralError options = true ->
  Client.outgoing c <> None ->
  Client.retryCount c = 0 ->
  let c' := Nat.iter n (Client.failAndRetry options) c in
  length (Client.sockets c') = (length (Client.sockets c) + n)%nat
  /\ Client.retryCount c' = Z.of_nat n
  /\ Client.log c'
     = Client.log c
       ++ repeat (Client.GeneralError Client.failedToConnect) (n - limit).
Proof.
  intros Hpos Hlimit Hgiven Hopen Hzero. cbn zeta.
  enough (H : Client.outgoing (Nat.iter n (Client.failAndRetry options) c)
              = Client.outgoing c
              /\ length (Client.sockets (Nat.iter n (Client.failAndRetry options) c))
                 = (length (Client.sockets c) + n)%nat
              /\ Client.retryCount (Nat.iter n (Client.failAndRetry options) c)
                 = Z.of_nat n
              /\ Client.log (Nat.iter n (Client.failAndRetry options) c)
                 = Client.log c
                   ++ repeat (Client.GeneralError Client.failedToConnect) (n - limit))
    by tauto.
  induction n as [|n (Ho & Hs & Hr & Hl)].
  - simpl Nat.iter. cbn. rewrite app_nil_r. auto.
  - simpl Nat.iter.
    destruct (round_reporting options limit Hpos Hlimit
                (Nat.iter n (Client.failAndRetry options) c) Hgiven)
      as (Ho' & Hs' & Hr' & Hl'); [congruence|].
    rewrite Ho', Hs', Hr', Hl', Ho, Hs, Hr, Hl.
    repeat split; try lia.
    destruct (Z.leb_spec (Z.of_nat limit) (Z.of_nat n)) as [Hle|Hlt].
    + replace (S n - limit)%nat with (S (n - limit)) by lia.
      now rewrite <- app_assoc, repeat_snoc.
    + replace (S n - limit)%nat with (n - limit)%nat by lia.
      now rewrite app_nil_r.
Qed.

Lemma exhausted_retries_go_on_with_handler_witness :
  let c' := Nat.iter 5 (Client.failAndRetry (RT := Demo2.host) (Demo2.reporting (Some 2)))
              Demo.connectedClient in
  length (Client.sockets c') = (length (Client.sockets Demo.connectedClient) + 5)%nat
  /\ Client.retryCount c' = Z.of_nat 5
  /\ Client.log c'
     = Client.log Demo.connectedClient
       ++ repeat (Client.GeneralError Client.failedToConnect) (5 - 2).
Proof.
  exact (exhausted_retries_go_on_with_handler (RT := Demo2.host)
           (Demo2.reporting (Some 2)) 2 5 Demo.connectedClient
           ltac:(discriminate) eq_refl eq_refl ltac:(discriminate) eq_refl).
Defined.

(** X21. With a limit of [limit] retries and no [onGeneralError], the
    client retries [limit] times and then stops: starting from a count of
    zero with no timer pending, after [n] errors each followed by its
    timer, [min n limit] sockets have been opened, and every error from the
    [limit]-th on has raised "Failed to connect" (code 101) without
    setting a timer. *)
Theorem exhausted_retries_stop_without_handler `{RT : Runtime}
    (options : ConnectOptions.t) (limit n : nat) (c : Client.State) :
  limit <> 0%nat ->
  ConnectOptions.retryCount options = Some (Z.of_nat limit) ->
  ConnectOptions.onGeneralError options = false ->
  Client.outgoing c <> None ->
  Client.retryCount c = 0 ->
  Client.timers c = [] ->
  let c' := Nat.iter n (Client.failAndRetry options) c in
  length (Client.sockets c') = (length (Client.sockets c) + Nat.min n limit)%nat
  /\ Client.retryCount c' = Z.of_nat (Nat.min n limit)
  /\ Client.timers c' = []
  /\ Client.log c'
     = Client.log c
       ++ repeat (Client.Uncaught (Thrown Client.failedToConnect)) (n - limit).
Proof.
  intros Hpos Hlimit Hgiven Hopen Hzero Hnone. cbn zeta.
  enough (H : Client.outgoing (Nat.iter n (Client.failAndRetry options) c)
              = Client.outgoing c
              /\ length (Client.sockets (Nat.iter n (Client.failAndRetry options) c))
                 = (length (Client.sockets c) + Nat.min n limit)%nat
              /\ Client.retryCount (Nat.iter n (Client.failAndRetry options) c)
                 = Z.of_nat (Nat.min n limit)
              /\ Client.timers (Nat.iter n (Client.failAndRetry options) c) = []
              /\ Client.log (Nat.iter n (Client.failAndRetry options) c)
                 = Client.log c
                   ++ repeat (Client.Uncaught (Thrown Client.failedToConnect))
                        (n - limit))
    by tauto.
  induction n as [|n (Ho & Hs & Hr & Ht & Hl)].
  - simpl Nat.iter. cbn. rewrite app_nil_r. auto.
  - simpl Nat.iter.
    destruct (round_silent options limit Hpos Hlimit
                (Nat.iter n (Client.failAndRetry options) c) Hgiven)
      as (Ho' & Ht' & Hcase); [congruence|exact Ht|].
    rewrite Hr in Hcase.
    destruct (Z.leb_spec (Z.of_nat limit) (Z.of_nat (Nat.min n limit))) as [Hle|Hlt];
      destruct Hcase as (Hs' & Hr' & Hl'); rewrite Ho', Hs', Hr', Hl', Ho, Hs, ?Hr, Hl.
    + replace (S n - limit)%nat with (S (n - limit)) by lia.
      rewrite <- app_assoc, repeat_snoc.
      repeat split; first [assumption | reflexivity | f_equal; lia | lia].
    + replace (S n - limit)%nat with (n - limit)%nat by lia.
      repeat split; first [assumption | reflexivity | f_equal; lia | lia].
Qed.

Lemma exhausted_retries_stop_without_handler_witness :
  let c' := Nat.iter 5 (Client.failAndRetry (RT := Demo2.host) (Demo2.silent (Some 2)))
              Demo.connectedClient in
  length (Client.sockets c')
  = (length (Client.sockets Demo.connectedClient) + Nat.min 5 2)%nat
  /\ Client.retryCount c' = Z.of_nat (Nat.min 5 2)
  /\ Client.timers c' = []
  /\ Client.log c'
     = Client.log Demo.connectedClient
       ++ repeat (Client.Uncaught (Thrown Client.failedToConnect)) (5 - 2).
Proof.
  exact (exhausted_retries_stop_without_handler (RT := Demo2.host)
           (Demo2.silent (Some 2)) 2 5 Demo.connectedClient
           ltac:(discriminate) eq_refl eq_refl ltac:(discriminate) eq_refl eq_refl).
Defined.

(** ** client.ts: closing, and the promise of [connect] *)

Section CloseMore.

Import Client.
Context `{RT : Runtime}.
Variable options : ConnectOptions.t.

Lemma close_sends_nothing (c : State) :
  map sent (sockets (close c)) = map sent (sockets c).
Proof.
  unfold close.
  destruct (notifier_shape (withOutgoing None c)) as (o & ss & -> & Hnone & _).
  destruct (Hnone eq_refl) as [_ Hss]. exact Hss.
Qed.



Lemma fire_connected (l : Listener) (error data : value) (c : State) :
  connected (fire l error data c) = connected c.
Proof. destruct l; unfold fire, settle; repeat case_match; reflexivity. Qed.

Lemma forEach_deliver_connected (res : list Response) (c : State) :
  connected (snd (forEach (deliver options) res c)) = connected c.
Proof.
  revert c. induction res as [|r res IH]; intros c; [reflexivity|].
  cbn [forEach]. unfold bind.
  assert (Hd : connected (snd (deliver options r c)) = connected c).
  { unfold deliver. destruct (id r); try reflexivity.
    - repeat case_match; reflexivity.
    - destruct (listeners c !! s); [apply fire_connected|reflexivity]. }
  destruct (deliver options r c) as [[[]|e] c1]; cbn [snd] in *; [|exact Hd].
  now rewrite IH.
Qed.

Lemma onmessage_connected (data : MessageData) (c : State) :
  connected (onmessage options data c) = connected c.
Proof.
  assert (Hw : forall n, connected (warnings n c) = connected c).
  { unfold warnings. induction n as [|n IH]; [reflexivity|]. simpl Nat.iter. exact IH. }
  unfold onmessage. destruct (parseResponse data) as [[res|] n]; [|apply Hw].
  pose proof (forEach_deliver_connected res (warnings n c)) as Hf.
  destruct (forEach (deliver options) res (warnings n c)) as [[[]|e] c1];
    cbn [snd effect connected] in *; now rewrite Hf.
Qed.

Lemma sendMessage_connected (method : string) (params : value) (id : option string)
    (c : State) :
  connected (snd (sendMessage method params id c)) = connected c.
Proof.
  unfold sendMessage. destruct (outgoing c); [|reflexivity]. cbn [snd].
  match goal with |- context [newOutgoingMessageNotifier ?x] =>
    destruct (notifier_shape x) as (o & ss & -> & _) end.
  reflexivity.
Qed.

Lemma step_connected (a : Action) (c : State) :
  a <> Open 0 -> connected (step options a c) = connected c.
Proof.
  intros Hne.
  destruct a as [key method params|method params|key method opts| |ws|ws|ws data|];
    cbn [step].
  - unfold call.
    match goal with |- context [sendMessage ?m ?p ?i ?x] =>
      pose proof (sendMessage_connected m p i x) as Hs;
      destruct (sendMessage m p i x) as [[[]|e] c1] end;
      cbn [snd] in Hs; [exact Hs|].
    unfold settle. repeat case_match; exact Hs.
  - apply sendMessage_connected.
  - unfold listen, bind, modify.
    match goal with |- context [sendMessage ?m ?p ?i ?x] =>
      pose proof (sendMessage_connected m p i x) as Hs;
      destruct (sendMessage m p i x) as [[[]|e] c1] end; exact Hs.
  - unfold close.
    destruct (notifier_shape (withOutgoing None c)) as (o & ss & -> & _). reflexivity.
  - assert (Hws : ws <> 0%nat) by congruence.
    unfold onopen. destruct (Nat.eqb_spec ws 0) as [?|_]; [contradiction|].
    destruct (sendAllMessages_shape ws (setReadyState ws OPEN c)) as (o & ss & ->).
    unfold setReadyState. destruct (sockets c !! ws); reflexivity.
  - unfold onerror, setReadyState.
    destruct (sockets c !! ws); repeat case_match; reflexivity.
  - apply onmessage_connected.
  - unfold ontimeout. repeat case_match; reflexivity.
Qed.

End CloseMore.

(** X22. [close()] drops the queue: whatever was still waiting to be sent
    when it is called is never sent. After [close()] and whatever follows,
    every socket has sent exactly what it had sent before the call. *)
Theorem close_discards_the_queue `{RT : Runtime} (options : ConnectOptions.t)
    (actions : list Client.Action) (c : Client.State) :
  map Client.sent (Client.sockets (Client.run options actions (Client.close c)))
  = map Client.sent (Client.sockets c).
Proof.
  destruct (run_closed options actions _ _ (close_closed c)) as [_ Hsent].
  now rewrite Hsent, close_sends_nothing.
Qed.

(** X23. [close()] closes the transport: a socket that is open goes to
    [CLOSING] at once; one that is not open yet is left alone by the call
    and goes to [CLOSING] when it opens, without having sent anything. *)
Theorem close_closes_the_socket `{RT : Runtime} (options : ConnectOptions.t)
    (ws : nat) (s : Client.WebSocket) (c : Client.State) :
  Client.notifier c = Some ws ->
  Client.sockets c !! ws = Some s ->
  (Client.readyState s = Client.OPEN ->
   Client.sockets (Client.close c) !! ws
   = Some {| Client.readyState := Client.CLOSING; Client.sent := Client.sent s |})
  /\ (Client.readyState s <> Client.OPEN ->
      Client.sockets (Client.close c) = Client.sockets c
      /\ Client.sockets (Client.step options (Client.Open ws) (Client.close c)) !! ws
         = Some {| Client.readyState := Client.CLOSING; Client.sent := Client.sent s |}).
Proof.
  intros Hn Hs.
  assert (Hlt : (ws < length (Client.sockets c))%nat) by now apply lookup_lt_Some in Hs.
  split; intros Hr.
  - unfold Client.close, Client.newOutgoingMessageNotifier.
    cbn [Client.notifier Client.sockets Client.withOutgoing]. rewrite Hn, Hs.
    destruct s as [r sent0]. cbn in Hr. subst r.
    unfold Client.sendAllMessages, Client.wsClose.
    cbn [Client.outgoing Client.sockets Client.withOutgoing]. rewrite Hs.
    cbn [Client.sockets Client.withSockets Client.readyState Client.sent].
    now apply list_lookup_insert_eq.
  - assert (Hclose : Client.close c = Client.withOutgoing None c).
    { unfold Client.close, Client.newOutgoingMessageNotifier.
      cbn [Client.notifier Client.sockets Client.withOutgoing]. rewrite Hn, Hs.
      destruct s as [[] ?]; cbn in Hr; congruence. }
    rewrite Hclose. split; [reflexivity|].
    cbn [Client.step]. unfold Client.setReadyState.
    cbn [Client.sockets Client.withOutgoing]. rewrite Hs.
    unfold Client.onopen, Client.sendAllMessages, Client.wsClose.
    cbn [Client.outgoing Client.sockets Client.withOutgoing Client.withSockets].
    rewrite list_lookup_insert_eq by exact Hlt.
    destruct (ws =? 0)%nat;
      cbn [Client.sockets Client.withSockets Client.withConnected Client.readyState
           Client.sent];
      rewrite list_insert_insert_eq; now apply list_lookup_insert_eq.
Qed.

Lemma close_closes_the_socket_witness :
  Client.sockets (Client.close Demo.connectedClient) !! 0%nat
  = Some {| Client.readyState := Client.CLOSING; Client.sent := [] |}.
Proof.
  exact (proj1 (close_closes_the_socket (RT := Demo2.host) Demo.noOptions 0%nat
                  {| Client.readyState := Client.OPEN; Client.sent := [] |}
                  Demo.connectedClient eq_refl eq_refl) eq_refl).
Defined.

(** X24. The promise [connect] awaits is that of the first socket: it
    resolves when that socket opens and on no other occasion. If the first
    attempt fails, no call, event or later socket that opens resolves it. *)
Theorem connect_resolves_on_first_socket_only `{RT : Runtime}
    (options : ConnectOptions.t) (actions : list Client.Action) (c : Client.State) :
  Forall (fun a => a <> Client.Open 0) actions ->
  Client.connected (Client.run options actions c) = Client.connected c
  /\ Client.connected (Client.step options (Client.Open 0) c) = true.
Proof.
  intros Hall. split.
  - unfold Client.run. revert c.
    induction Hall as [|a actions Ha _ IH]; intros c; [reflexivity|].
    cbn [fold_left]. now rewrite IH, (step_connected options a c Ha).
  - cbn [Client.step]. unfold Client.onopen. reflexivity.
Qed.

Lemma connect_resolves_on_first_socket_only_witness :
  Client.connected
    (Client.run (RT := Demo2.host) Demo.noOptions
       [Client.Error 0; Client.Timeout; Client.Open 1;
        Client.Notify "log" (VStr "hi")]
       (Client.tryToConnect Client.initial))
  = false.
Proof.
  refine (proj1 (connect_resolves_on_first_socket_only (RT := Demo2.host)
                   Demo.noOptions
                   [Client.Error 0; Client.Timeout; Client.Open 1;
                    Client.Notify "log" (VStr "hi")]
                   (Client.tryToConnect Client.initial) _)).
  repeat constructor; discriminate.
Defined.

(** ** Client and server together *)

(** X25. On a host that decodes the request as it was encoded,
    [listen(name)] queues a frame that the server parses to exactly one
    valid request: its method is [name + ':'], its id the id of the
    subscription, and its parameters those of the options, [null] when
    they are falsy. *)
Theorem listen_sends_an_emitter_request `{RT : Runtime}
    (key name : string) (opts : ListenOptions.t) (q : list string)
    (c : Client.State) :
  let params := if truthy (ListenOptions.params opts)
                then ListenOptions.params opts else VNull in
  let frame := Frames.requestFrame (String.append name ":") params (Some key) in
  key <> "" ->
  Client.outgoing c = Some q ->
  JSON_parse frame
  = Some (VObj (Frames.requestObject (String.append name ":") params (Some key))) ->
  Client.listen key name opts c
  = (Ok tt,
     Client.newOutgoingMessageNotifier
       (Client.withOutgoing (Some (q ++ [frame]))
          (Client.withListeners <[key := Client.Subscription opts]> c)))
  /\ Server.parseRequest frame
     = Some [Server.Request
               {| Server.method := String.append name ":";
                  Server.id := VStr key; Server.params := params |}]
  /\ endsWith ":" (String.append name ":") = true.
Proof.
  intros params frame Hkey Hq Hparse. split; [|split].
  - unfold Client.listen, bind, modify.
    now rewrite (sendMessage_frame _ _ _ q
                   (Client.withListeners <[key := Client.Subscription opts]> c) Hq).
  - unfold Server.parseRequest. rewrite Hparse.
    unfold Frames.requestObject.
    destruct (String.eqb_spec key "") as [?|_]; [contradiction|].
    reflexivity.
  - apply endsWith_append.
Qed.

Lemma listen_sends_an_emitter_request_witness :
  Server.parseRequest (RT := Demo.host)
    (Frames.requestFrame (RT := Demo.host) "hello:"
       (VObj [("username", VStr "Vehmloewff")]) (Some "sub"))
  = Some [Server.Request
            {| Server.method := "hello:"; Server.id := VStr "sub";
               Server.params := VObj [("username", VStr "Vehmloewff")] |}].
Proof.
  exact (proj1 (proj2 (listen_sends_an_emitter_request (RT := Demo.host)
                         "sub" "hello" Demo.listenOptions []
                         Demo.connectedClient ltac:(discriminate) eq_refl eq_refl))).
Defined.
